(** * torch-ngp raymarching: the Python autograd wrappers of
      [raymarching/raymarching.py], embedded and checked against the
      design document.

    The file has two parts.  Part I embeds the wrappers: the buffer
    sizing and trimming of the two marchers, the two hand-written backward
    passes, and the tensor operations of the libraries they call (slicing,
    broadcasting, [torch.cat], [segment_csr], [rearrange]) as far as the
    wrappers use them.  The CUDA kernels behind [_backend] are not part of
    the Python file: where a wrapper only hands buffers to a kernel the
    kernel is a parameter, and where a property is about what a kernel
    computes the kernel is modelled from the design document.  Part II
    states and proves the properties; Part III adds what the wrappers do
    in every mode and on their edges. *)

From Stdlib Require Import ZArith List Bool Lia.
From Stdlib Require Import Floats.SpecFloat.
From stdpp Require Import base list.

Local Open Scope Z_scope.

(* ===================================================================== *)
(** * Part I: the embedding                                               *)
(* ===================================================================== *)

(** ** Single-precision floats

    Every wrapper is decorated with [custom_fwd(cast_inputs=torch.float32)],
    so the tensors are IEEE 754 binary32: 24 bits of precision, infinities at
    exponent 128.  The operations are those of the standard library's
    executable specification of IEEE arithmetic. *)
Module F32.

Definition t := spec_float.

Definition prec : Z := 24.
Definition emax : Z := 128.

Definition add : t -> t -> t := SFadd prec emax.
Definition sub : t -> t -> t := SFsub prec emax.
Definition mul : t -> t -> t := SFmul prec emax.
Definition div : t -> t -> t := SFdiv prec emax.
Definition ltb : t -> t -> bool := SFltb.

(** The value of an integer literal, rounded to binary32. *)
Definition of_Z (z : Z) : t := binary_normalize prec emax z 0 false.

Definition zero : t := S754_zero false.       (* [0.]  *)
Definition one : t := of_Z 1.                 (* [1.]  *)
Definition minus_one : t := of_Z (-1).        (* [-1.] *)

(** [x > y] of Python and C: false as soon as one side is NaN. *)
Definition gtb (x y : t) : bool := ltb y x.

Definition is_zero (x : t) : bool :=
  match x with S754_zero _ => true | _ => false end.
Definition is_nan (x : t) : bool :=
  match x with S754_nan => true | _ => false end.
Definition is_finite (x : t) : bool :=
  match x with S754_zero _ | S754_finite _ _ _ => true | _ => false end.

End F32.

Abbreviation f32 := F32.t.

(** ** Failures

    A call that raises in Python returns [Err] here, with the kind of
    exception the library raises. *)
Inductive error : Type :=
  | NegativeDimension (n : Z)
      (* torch.zeros / torch.empty with a negative size *)
  | BroadcastMismatch (a b : nat)
      (* "The size of tensor a must match the size of tensor b" *)
  | CatRankMismatch (r1 r2 : nat)
      (* "Tensors must have same number of dimensions: got r1 and r2" *)
  | CatSizeMismatch
      (* torch.cat: sizes differ outside the concatenated dimension *)
  | IndexOutOfRange
      (* integer index outside the dimension *)
  | TooManyIndices
      (* more indices than dimensions *)
  | EinopsRank (expected got : nat)
      (* einops: "Wrong shape: expected n dims. Received m-dim tensor" *)
  | SegmentCsrShape
      (* torch_scatter.segment_csr: indptr does not fit src *).

Inductive result (A : Type) : Type :=
  | Ok (a : A)
  | Err (e : error).
Arguments Ok {A} a.
Arguments Err {A} e.

Definition bind {A B} (r : result A) (k : A -> result B) : result B :=
  match r with
  | Ok a => k a
  | Err e => Err e
  end.

Declare Scope result_scope.
Delimit Scope result_scope with result.
Notation "'let*' x ':=' r 'in' k" := (bind r (fun x => k))
  (at level 10, x pattern, r at level 100, k at level 200) : result_scope.
Local Open Scope result_scope.

Definition is_ok {A} (r : result A) : bool :=
  match r with Ok _ => true | Err _ => false end.

(** ** Buffers of rows

    A [K, c] float tensor that a wrapper only allocates, hands to a kernel
    and slices along its first dimension is a list of [K] rows. *)
Definition row := list f32.
Definition buffer := list row.

Definition zero_row (c : nat) : row := replicate c F32.zero.

(** [torch.zeros(M, c)]: raises on a negative [M]. *)
Definition torch_zeros (M : Z) (c : nat) : result buffer :=
  if M <? 0 then Err (NegativeDimension M)
  else Ok (replicate (Z.to_nat M) (zero_row c)).

(** The end of the Python slice [[:m]] on a dimension of size [len]: a
    negative bound counts from the end, and both cases are clamped into
    [0 .. len]. *)
Definition slice_stop (len m : Z) : Z :=
  if m <? 0 then Z.max 0 (len + m) else Z.min m len.

(** [buf[:m]]. *)
Definition slice_to {A} (m : Z) (buf : list A) : list A :=
  take (Z.to_nat (slice_stop (Z.of_nat (length buf)) m)) buf.

(** A kernel fills a buffer in place; what it does to the buffer is the
    list of row stores it performs, in the order they land. *)
Definition writes := list (nat * row).

Definition apply_writes (ws : writes) (buf : buffer) : buffer :=
  fold_left (fun b w => <[fst w := snd w]> b) ws buf.

Definition written (ws : writes) : list nat := map fst ws.

(** [n += align - n % align], the padding statement the two marchers
    share.  Python's [%] on integers takes the sign of the divisor, as
    [Z.modulo] does. *)
Definition pad_to_align (n align : Z) : Z := n + (align - n mod align).

(** ** [_march_rays_train.forward] *)
Module MarchRaysTrain.

(** What [_backend.march_rays_train] receives by value.  The four sample
    buffers it also receives are [M] rows of zeros at that point, the
    [rays] tensor is uninitialised. *)
Record kernel_input : Type := {
  k_rays_o : buffer;
  k_rays_d : buffer;
  k_density_bitfield : list Z;
  k_bound : f32;
  k_dt_gamma : f32;
  k_max_steps : Z;
  k_N : Z;
  k_C : Z;
  k_H : Z;
  k_M : Z;
  k_nears : list f32;
  k_fars : list f32;
  k_step_counter : Z * Z;
  k_perturb : bool
}.

(** What the kernel leaves behind: the stores into the four sample
    buffers, the contents of [rays] (id, offset, count per ray) and of the
    two counters. *)
Record kernel_effect : Type := {
  w_xyzs : writes;
  w_dirs : writes;
  w_deltas : writes;
  w_ts : writes;
  e_rays : list (Z * Z * Z);
  e_step_counter : Z * Z
}.

Definition kernel := kernel_input -> kernel_effect.

Record output : Type := {
  xyzs : buffer;
  dirs : buffer;
  deltas : buffer;
  rays : list (Z * Z * Z);
  (* ctx.save_for_backward(rays, ts) *)
  saved_rays : list (Z * Z * Z);
  saved_ts : buffer
}.

(** Lines 317-325: [mean_count] as the assignment at line 324 leaves it,
    and the capacity [M]. *)
Definition capacity (N max_steps mean_count align : Z)
    (force_all_rays : bool) : Z * Z :=
  let M := N * max_steps in
  if negb force_all_rays && (0 <? mean_count) then
    let mean_count :=
      if 0 <? align then pad_to_align mean_count align else mean_count in
    (mean_count, mean_count)
  else (mean_count, M).

(** Lines 327-330: the four zero-initialised sample buffers. *)
Definition allocate (M : Z) : result (buffer * buffer * buffer * buffer) :=
  let* xyzs := torch_zeros M 3 in
  let* dirs := torch_zeros M 3 in
  let* deltas := torch_zeros M 2 in
  let* ts := torch_zeros M 1 in
  Ok (xyzs, dirs, deltas, ts).

(** Line 347: the condition under which the outputs are cut, read after
    line 324 has run. *)
Definition trims (force_all_rays : bool) (mean_count : Z) : bool :=
  force_all_rays || (mean_count <=? 0).

(** Lines 348-350: the row count [m] the outputs are sliced with. *)
Definition trim_count (counter0 align : Z) : Z :=
  if 0 <? align then pad_to_align counter0 align else counter0.

(** The state of the call when the kernel has returned (line 344). *)
Record marched : Type := {
  m_mean_count : Z;
  m_M : Z;
  m_effect : kernel_effect;
  m_xyzs : buffer;
  m_dirs : buffer;
  m_deltas : buffer;
  m_ts : buffer
}.

Section Forward.
Variable march_rays_train_kernel : kernel.

(** Lines 317-342. *)
Definition march (rays_o rays_d : buffer) (bound : f32)
    (density_bitfield : list Z) (C H : Z) (nears fars : list f32)
    (step_counter : option (Z * Z)) (mean_count : Z) (perturb : bool)
    (align : Z) (force_all_rays : bool) (dt_gamma : f32)
    (max_steps : Z) : result marched :=
  let N := Z.of_nat (length rays_o) in
  let '(mean_count, M) :=
    capacity N max_steps mean_count align force_all_rays in
  let* (xyzs, dirs, deltas, ts) := allocate M in
  let step_counter :=
    match step_counter with
    | Some c => c
    | None => (0, 0)
    end in
  let eff := march_rays_train_kernel
    {| k_rays_o := rays_o; k_rays_d := rays_d;
       k_density_bitfield := density_bitfield; k_bound := bound;
       k_dt_gamma := dt_gamma; k_max_steps := max_steps; k_N := N;
       k_C := C; k_H := H; k_M := M; k_nears := nears; k_fars := fars;
       k_step_counter := step_counter; k_perturb := perturb |} in
  Ok {| m_mean_count := mean_count; m_M := M; m_effect := eff;
        m_xyzs := apply_writes (w_xyzs eff) xyzs;
        m_dirs := apply_writes (w_dirs eff) dirs;
        m_deltas := apply_writes (w_deltas eff) deltas;
        m_ts := apply_writes (w_ts eff) ts |}.

(** Lines 344-357. *)
Definition finish (force_all_rays : bool) (align : Z) (s : marched)
    : output :=
  let rays := e_rays (m_effect s) in
  let '(xyzs, dirs, deltas) :=
    if trims force_all_rays (m_mean_count s) then
      let m := trim_count (fst (e_step_counter (m_effect s))) align in
      (slice_to m (m_xyzs s), slice_to m (m_dirs s),
       slice_to m (m_deltas s))
    else (m_xyzs s, m_dirs s, m_deltas s) in
  {| xyzs := xyzs; dirs := dirs; deltas := deltas; rays := rays;
     saved_rays := rays; saved_ts := m_ts s |}.

Definition forward (rays_o rays_d : buffer) (bound : f32)
    (density_bitfield : list Z) (C H : Z) (nears fars : list f32)
    (step_counter : option (Z * Z)) (mean_count : Z) (perturb : bool)
    (align : Z) (force_all_rays : bool) (dt_gamma : f32)
    (max_steps : Z) : result output :=
  let* s := march rays_o rays_d bound density_bitfield C H nears fars
                  step_counter mean_count perturb align force_all_rays
                  dt_gamma max_steps in
  Ok (finish force_all_rays align s).

End Forward.

End MarchRaysTrain.

(** ** [_march_rays.forward] *)
Module MarchRays.

Record kernel_input : Type := {
  k_n_alive : Z;
  k_n_step : Z;
  k_rays_alive : list Z;
  k_rays_t : list f32;
  k_rays_o : buffer;
  k_rays_d : buffer;
  k_bound : f32;
  k_dt_gamma : f32;
  k_max_steps : Z;
  k_C : Z;
  k_H : Z;
  k_density_bitfield : list Z;
  k_near : list f32;
  k_far : list f32;
  k_perturb : bool
}.

Record kernel_effect : Type := {
  w_xyzs : writes;
  w_dirs : writes;
  w_deltas : writes
}.

Definition kernel := kernel_input -> kernel_effect.

(** Lines 512-515. *)
Definition chunk_size (n_alive n_step align : Z) : Z :=
  let M := n_alive * n_step in
  if 0 <? align then pad_to_align M align else M.

(** The arguments of the call at lines 523-525. *)
Definition kernel_call (n_alive n_step : Z) (rays_alive : list Z)
    (rays_t : list f32) (rays_o rays_d : buffer) (bound : f32)
    (density_bitfield : list Z) (C H : Z) (near far : list f32)
    (perturb : bool) (dt_gamma : f32) (max_steps : Z) : kernel_input :=
  {| k_n_alive := n_alive; k_n_step := n_step;
     k_rays_alive := rays_alive; k_rays_t := rays_t;
     k_rays_o := rays_o; k_rays_d := rays_d; k_bound := bound;
     k_dt_gamma := dt_gamma; k_max_steps := max_steps; k_C := C;
     k_H := H; k_density_bitfield := density_bitfield;
     k_near := near; k_far := far; k_perturb := perturb |}.

Section Forward.
Variable march_rays_kernel : kernel.

Definition forward (n_alive n_step : Z) (rays_alive : list Z)
    (rays_t : list f32) (rays_o rays_d : buffer) (bound : f32)
    (density_bitfield : list Z) (C H : Z) (near far : list f32)
    (align : Z) (perturb : bool) (dt_gamma : f32) (max_steps : Z)
    : result (buffer * buffer * buffer) :=
  let M := chunk_size n_alive n_step align in
  let* xyzs := torch_zeros M 3 in
  let* dirs := torch_zeros M 3 in
  let* deltas := torch_zeros M 2 in
  let eff := march_rays_kernel
    {| k_n_alive := n_alive; k_n_step := n_step;
       k_rays_alive := rays_alive; k_rays_t := rays_t;
       k_rays_o := rays_o; k_rays_d := rays_d; k_bound := bound;
       k_dt_gamma := dt_gamma; k_max_steps := max_steps; k_C := C;
       k_H := H; k_density_bitfield := density_bitfield;
       k_near := near; k_far := far; k_perturb := perturb |} in
  Ok (apply_writes (w_xyzs eff) xyzs,
      apply_writes (w_dirs eff) dirs,
      apply_writes (w_deltas eff) deltas).

End Forward.

End MarchRays.

(** ** Tensors with a shape

    [_march_rays_train.backward] slices, adds and concatenates tensors of
    different ranks, so there the shape is part of the value: a tensor is a
    shape and its elements in row-major order. *)
Module Tensor.

Record t (A : Type) : Type := mk { shape : list nat; data : list A }.
Arguments mk {A} shape data.
Arguments shape {A} _.
Arguments data {A} _.

Definition numel (s : list nat) : nat := fold_right Nat.mul 1%nat s.

(** A [K, c] buffer as a tensor. *)
Definition of_buffer {A} (c : nat) (rows : list (list A)) : t A :=
  mk [length rows; c] (concat rows).

(** The [N, 3] int32 tensor [rays]. *)
Definition of_rays (rays : list (Z * Z * Z)) : t Z :=
  of_buffer 3 (map (fun r => [fst (fst r); snd (fst r); snd r]) rays).

(** A bound of a Python slice on a dimension of size [len]. *)
Definition slice_bound (len : nat) (i : Z) : nat :=
  Z.to_nat (slice_stop (Z.of_nat len) i).

(** [x[start:stop]]: a slice of the first dimension. *)
Definition slice0 {A} (start stop : option Z) (x : t A) : result (t A) :=
  match shape x with
  | [] => Err TooManyIndices
  | n :: rest =>
      let lo := match start with
                | Some i => slice_bound n i
                | None => 0%nat
                end in
      let hi := match stop with
                | Some i => slice_bound n i
                | None => n
                end in
      let k := (hi - lo)%nat in
      let r := numel rest in
      Ok (mk (k :: rest) (take (k * r) (drop (lo * r) (data x))))
  end.

(** [x[:, j]]: integer index on the second dimension, which disappears
    from the shape. *)
Definition select1 {A} (j : Z) (x : t A) : result (t A) :=
  match shape x with
  | n :: c :: rest =>
      if (j <? - Z.of_nat c) || (Z.of_nat c <=? j) then Err IndexOutOfRange
      else
        let j := Z.to_nat (if j <? 0 then j + Z.of_nat c else j) in
        let r := numel rest in
        Ok (mk (n :: rest)
              (flat_map (fun i => take r (drop ((i * c + j) * r) (data x)))
                        (seq 0 n)))
  | _ => Err TooManyIndices
  end.

(** Broadcasting, on shapes read from the last dimension backwards: two
    sizes agree when they are equal or one of them is 1; the shorter
    shape is extended on the left. *)
Fixpoint broadcast_rev (s1 s2 : list nat) : result (list nat) :=
  match s1, s2 with
  | [], s | s, [] => Ok s
  | a :: s1', b :: s2' =>
      let* s := broadcast_rev s1' s2' in
      if (a =? b)%nat then Ok (a :: s)
      else if (a =? 1)%nat then Ok (b :: s)
      else if (b =? 1)%nat then Ok (a :: s)
      else Err (BroadcastMismatch a b)
  end.

(** The multi-index of flat position [i], last dimension first. *)
Fixpoint unravel_rev (s : list nat) (i : nat) : list nat :=
  match s with
  | [] => []
  | d :: s' => (i mod d)%nat :: unravel_rev s' (i / d)%nat
  end.

(** The flat position in an operand of shape [s] that a multi-index of
    the broadcast result reads: dimensions of size 1 are read at 0, the
    dimensions the operand lacks are ignored. *)
Fixpoint offset_rev (s idx : list nat) : nat :=
  match s, idx with
  | d :: s', k :: idx' =>
      ((if (d =? 1)%nat then 0 else k) + d * offset_rev s' idx')%nat
  | _, _ => 0%nat
  end.

(** [x op y] elementwise, with broadcasting. *)
Definition binop {A B C} (f : A -> B -> C) (x : t A) (y : t B)
    : result (t C) :=
  let sx := rev (shape x) in
  let sy := rev (shape y) in
  let* s := broadcast_rev sx sy in
  Ok (mk (rev s)
        (flat_map
           (fun i =>
              let idx := unravel_rev s i in
              match data x !! offset_rev sx idx,
                    data y !! offset_rev sy idx with
              | Some a, Some b => [f a b]
              | _, _ => []
              end)
           (seq 0 (numel s)))).

(** [torch.cat] skips one-dimensional empty tensors ... *)
Definition legacy_empty {A} (x : t A) : bool :=
  match shape x with
  | [O] => true
  | _ => false
  end.

(** ... and requires of the others the same rank and the same sizes
    outside dimension 0. *)
Definition cat2 {A} (x y : t A) : result (t A) :=
  match shape x, shape y with
  | n :: sx, m :: sy =>
      if negb (length sx =? length sy)%nat
      then Err (CatRankMismatch (S (length sx)) (S (length sy)))
      else if bool_decide (sx = sy)
      then Ok (mk ((n + m)%nat :: sx) (data x ++ data y))
      else Err CatSizeMismatch
  | sx, sy => Err (CatRankMismatch (length sx) (length sy))
  end.

(** [torch.cat(xs)] along dimension 0. *)
Definition cat {A} (xs : list (t A)) : result (t A) :=
  match List.filter (fun x => negb (legacy_empty x)) xs with
  | [] => Ok (mk [O] [])
  | x :: rest => fold_left (fun acc y => let* a := acc in cat2 a y)
                           rest (Ok x)
  end.

(** [rearrange(x, "n -> n 1")]: the pattern names one axis, so einops
    refuses every input that is not one-dimensional. *)
Definition rearrange_n_to_n1 {A} (x : t A) : result (t A) :=
  match shape x with
  | [n] => Ok (mk [n; 1%nat] (data x))
  | s => Err (EinopsRank 1 (length s))
  end.

(** [segment_csr(src, indptr)] with the default sum reduction, for a
    one-dimensional [indptr] over a two-dimensional [src]: row [i] of the
    result adds up the rows [indptr[i] .. indptr[i+1] - 1] of [src],
    starting from zero.  A pointer outside [0 .. rows] makes the kernel
    read outside [src]; such a call, and an [indptr] of another rank, is
    answered with [SegmentCsrShape]. *)
Definition sum_rows (c : nat) (rows : list (list f32)) : list f32 :=
  fold_left (fun acc r => zip_with F32.add acc r) rows (zero_row c).

Definition segment_csr (src : t f32) (indptr : t Z) : result (t f32) :=
  match shape src, shape indptr with
  | [m; c], [k] =>
      if forallb (fun p => (0 <=? p) && (p <=? Z.of_nat m)) (data indptr)
      then
        let rows := (fix chunk (n : nat) (l : list f32) :=
                       match n with
                       | O => []
                       | S n' => take c l :: chunk n' (drop c l)
                       end) m (data src) in
        let ptr := map Z.to_nat (data indptr) in
        let segs := zip ptr (tail ptr) in
        Ok (mk [length segs; c]
              (flat_map
                 (fun se => sum_rows c (take (snd se - fst se)
                                          (drop (fst se) rows)))
                 segs))
      else Err SegmentCsrShape
  | _, _ => Err SegmentCsrShape
  end.

End Tensor.

(** ** [_march_rays_train.backward] *)
Module MarchRaysTrainBackward.

(** The sum of two int32 values. *)
Definition int32_add (a b : Z) : Z :=
  (a + b + 2 ^ 31) mod 2 ^ 32 - 2 ^ 31.

(** Line 366. *)
Definition segments (rays : Tensor.t Z) : result (Tensor.t Z) :=
  (* rays[:, 1] *)
  let* starts := bind (Tensor.slice0 None None rays) (Tensor.select1 1) in
  (* rays[-1:, 1] *)
  let* last_start :=
    bind (Tensor.slice0 (Some (-1)) None rays) (Tensor.select1 1) in
  (* rays[-1:2] *)
  let* last_rows := Tensor.slice0 (Some (-1)) (Some 2) rays in
  let* last_end := Tensor.binop int32_add last_start last_rows in
  Tensor.cat [starts; last_end].

(** Lines 363-375: the two gradients that are not [None]. *)
Definition backward (saved_rays : list (Z * Z * Z)) (saved_ts : buffer)
    (dL_dxyzs dL_ddirs dL_ddeltas : buffer)
    : result (Tensor.t f32 * Tensor.t f32) :=
  let rays := Tensor.of_rays saved_rays in
  let ts := Tensor.of_buffer 1 saved_ts in
  let dL_dxyzs := Tensor.of_buffer 3 dL_dxyzs in
  let dL_ddirs := Tensor.of_buffer 3 dL_ddirs in
  let* segments := segments rays in
  let* dL_drays_o := Tensor.segment_csr dL_dxyzs segments in
  let* ts1 := Tensor.rearrange_n_to_n1 ts in
  let* scaled := Tensor.binop F32.mul dL_dxyzs ts1 in
  let* summed := Tensor.binop F32.add scaled dL_ddirs in
  let* dL_drays_d := Tensor.segment_csr summed segments in
  Ok (dL_drays_o, dL_drays_d).

(** Lines 368-375 on their own: what the backward pass does once the
    segments are there. *)
Definition backward_from (segments : Tensor.t Z)
    (ts dL_dxyzs dL_ddirs : Tensor.t f32)
    : result (Tensor.t f32 * Tensor.t f32) :=
  let* dL_drays_o := Tensor.segment_csr dL_dxyzs segments in
  let* ts1 := Tensor.rearrange_n_to_n1 ts in
  let* scaled := Tensor.binop F32.mul dL_dxyzs ts1 in
  let* summed := Tensor.binop F32.add scaled dL_ddirs in
  let* dL_drays_d := Tensor.segment_csr summed segments in
  Ok (dL_drays_o, dL_drays_d).

(** The gradients as the design document words them, to compare the
    code with: for each ray the sum of [d_position] over the samples of
    its segment [(offset, count)], and the sum of
    [d_position * t + d_direction] over the same samples. *)
Definition segment_of {A} (ray : Z * Z * Z) (samples : list A) : list A :=
  take (Z.to_nat (snd ray)) (drop (Z.to_nat (snd (fst ray))) samples).

Definition scatter_sum_spec (rays : list (Z * Z * Z)) (ts : buffer)
    (d_position d_direction : buffer) : list row * list row :=
  let per_sample :=
    zip_with (fun pt dd =>
                zip_with F32.add
                  (map (fun p => F32.mul p (hd F32.zero (snd pt)))
                       (fst pt))
                  dd)
             (zip d_position ts) d_direction in
  (map (fun r => Tensor.sum_rows 3 (segment_of r d_position)) rays,
   map (fun r => Tensor.sum_rows 3 (segment_of r per_sample)) rays).

End MarchRaysTrainBackward.

(** ** [_near_far_from_aabb]: [get_indicator] and [backward]

    Every tensor of this backward pass has one row per ray and every
    operation is elementwise along the rays, so the pass is embedded as
    the function of one ray, applied to each row of the batch. *)
Module NearFar.

Definition vec3 : Type := f32 * f32 * f32.

(** [v[j]] for a column [j] in 0, 1, 2. *)
Definition vget (j : Z) (v : vec3) : f32 :=
  let '(x, y, z) := v in
  if j =? 0 then x else if j =? 1 then y else z.

(** [v[j] = a]. *)
Definition vset (j : Z) (a : f32) (v : vec3) : vec3 :=
  let '(x, y, z) := v in
  if j =? 0 then (a, y, z) else if j =? 1 then (x, a, z) else (x, y, a).

Definition vmap2 (f : f32 -> f32 -> f32) (u v : vec3) : vec3 :=
  let '(a, b, c) := u in
  let '(x, y, z) := v in
  (f a x, f b y, f c z).

(** [s * v] for a [b 1] column [s] against a [b 3] tensor. *)
Definition vscale (s : f32) (v : vec3) : vec3 :=
  let '(x, y, z) := v in
  (F32.mul s x, F32.mul s y, F32.mul s z).

(** The box [(xmin, ymin, zmin, xmax, ymax, zmax)]. *)
Record aabb : Type := {
  xmin : f32; ymin : f32; zmin : f32;
  xmax : f32; ymax : f32; zmax : f32
}.

(** [aabb[k]] for [k] in 0 .. 5. *)
Definition plane (box : aabb) (k : Z) : f32 :=
  if k =? 0 then xmin box else if k =? 1 then ymin box
  else if k =? 2 then zmin box else if k =? 3 then xmax box
  else if k =? 4 then ymax box else zmax box.

(** Lines 67-77, one row of [indicator]: the row of zeros, the store of
    [1.] at column [indices % 3], and the store of [0.] at the same
    column when the index is 255. *)
Definition get_indicator (index : Z) : vec3 :=
  let near_dim := index mod 3 in
  let invalid_near := index =? 255 in
  let indicator := (F32.zero, F32.zero, F32.zero) in
  let indicator := vset near_dim F32.one indicator in
  if invalid_near then vset near_dim F32.zero indicator else indicator.

(** What the backward pass reads for one ray: the saved origin,
    direction and the two hit indices (uint8 read as int), and the two
    incoming gradients. *)
Record ray : Type := {
  rays_o : vec3;
  rays_d : vec3;
  near_index : Z;
  far_index : Z;
  dL_dnear : f32;
  dL_dfar : f32
}.

(** Lines 101-130 on one ray: [(dL_drays_o, dL_drays_d)]. *)
Definition backward_ray (box : aabb) (r : ray) : vec3 * vec3 :=
  let indicator_near := get_indicator (near_index r) in
  let indicator_far := get_indicator (far_index r) in
  let aabb_near := plane box (near_index r mod 6) in
  let aabb_far := plane box (far_index r mod 6) in
  (* indicator * -1. / rays_d *)
  let dt_o ind :=
    vmap2 F32.div (vmap2 F32.mul ind
                     (F32.minus_one, F32.minus_one, F32.minus_one))
          (rays_d r) in
  let dtnear_dray_o := dt_o indicator_near in
  let dtfar_dray_o := dt_o indicator_far in
  let dL_drays_o :=
    vmap2 F32.add (vscale (dL_dnear r) dtnear_dray_o)
                  (vscale (dL_dfar r) dtfar_dray_o) in
  let rays_d_sq := vmap2 F32.mul (rays_d r) (rays_d r) in
  (* indicator * (rays_o / rays_d_sq - aabb / rays_d_sq) *)
  let dt_d ind pl :=
    vmap2 F32.mul ind
          (vmap2 F32.sub (vmap2 F32.div (rays_o r) rays_d_sq)
                         (vmap2 F32.div (pl, pl, pl) rays_d_sq)) in
  let dtnear_dray_d := dt_d indicator_near aabb_near in
  let dtfar_dray_d := dt_d indicator_far aabb_far in
  let dL_drays_d :=
    vmap2 F32.add (vscale (dL_dnear r) dtnear_dray_d)
                  (vscale (dL_dfar r) dtfar_dray_d) in
  (dL_drays_o, dL_drays_d).

(** The batch: one row of each gradient per ray. *)
Definition backward (box : aabb) (batch : list ray)
    : list vec3 * list vec3 :=
  (map (fun r => fst (backward_ray box r)) batch,
   map (fun r => snd (backward_ray box r)) batch).

(** The sentinel of a ray that misses the box. *)
Definition sentinel : Z := 255.

(** The three columns. *)
Definition axis (j : Z) : Prop := j = 0 \/ j = 1 \/ j = 2.

(** A direction component that is neither zero nor NaN. *)
Definition nonzero (d : f32) : bool :=
  match d with
  | S754_finite _ _ _ | S754_infinity _ => true
  | _ => false
  end.

End NearFar.

(** ** [_composite_rays_train.backward] *)
Module CompositeRaysTrain.

(** The tensors saved by the forward pass, and [ctx.dims]. *)
Record saved : Type := {
  sigmas : list f32;
  rgbs : buffer;
  deltas : buffer;
  rays : list (Z * Z * Z);
  weights_sum : list f32;
  depth : list f32;
  image : buffer;
  dim_M : Z;
  dim_N : Z
}.

(** What [_backend.composite_rays_train_backward] receives, in the order
    of the call at lines 446-449. *)
Record kernel_input : Type := {
  k_grad_weights_sum : list f32;
  k_grad_image : buffer;
  k_sigmas : list f32;
  k_rgbs : buffer;
  k_deltas : buffer;
  k_rays : list (Z * Z * Z);
  k_weights_sum : list f32;
  k_image : buffer;
  k_M : Z;
  k_N : Z;
  k_grad_sigmas : list f32;
  k_grad_rgbs : buffer
}.

(** The kernel writes [grad_sigmas] and [grad_rgbs] in place; as a
    function it returns their contents after the call. *)
Definition kernel := kernel_input -> list f32 * buffer.

(** [torch.zeros_like]. *)
Definition zeros_like (x : list f32) : list f32 :=
  map (fun _ => F32.zero) x.
Definition zeros_like_rows (x : buffer) : buffer := map zeros_like x.

Section Backward.
Variable composite_rays_train_backward_kernel : kernel.

(** Lines 437-451: [(grad_sigmas, grad_rgbs)]; the other two results
    are [None]. *)
Definition backward (ctx : saved)
    (grad_weights_sum grad_depth : list f32) (grad_image : buffer)
    : list f32 * buffer :=
  let grad_sigmas := zeros_like (sigmas ctx) in
  let grad_rgbs := zeros_like_rows (rgbs ctx) in
  composite_rays_train_backward_kernel
    {| k_grad_weights_sum := grad_weights_sum;
       k_grad_image := grad_image;
       k_sigmas := sigmas ctx; k_rgbs := rgbs ctx;
       k_deltas := deltas ctx; k_rays := rays ctx;
       k_weights_sum := weights_sum ctx; k_image := image ctx;
       k_M := dim_M ctx; k_N := dim_N ctx;
       k_grad_sigmas := grad_sigmas; k_grad_rgbs := grad_rgbs |}.

End Backward.

End CompositeRaysTrain.

(** ** [_morton3D] and [_morton3D_invert] *)
Module Morton.

(** Modelled from the spec: the kernel [_backend.morton3D] is not in the
    Python file.  The design document says that encode "interleaves the
    bits of the three coordinates into a single Morton code" held in a
    [u32]: bit [i] of the three coordinates becomes bits [3i], [3i+1],
    [3i+2] of the code. *)
Fixpoint interleave3 (bits : nat) (x y z : Z) : Z :=
  match bits with
  | O => 0
  | S b =>
      x mod 2 + 2 * (y mod 2) + 4 * (z mod 2)
      + 8 * interleave3 b (x / 2) (y / 2) (z / 2)
  end.

(** Modelled from the spec: the code of one cell by the missing kernel,
    the interleaving cut to the 32 bits of a [u32]. *)
Definition encode (x y z : Z) : Z := interleave3 32 x y z mod 2 ^ 32.

(** Modelled from the spec: the kernel [_backend.morton3D_invert] is not
    in the Python file.  The design document calls decode the "exact
    inverse" of encode: it collects every third bit of the code, 11 bits
    for each coordinate out of the 32 of a [u32]. *)
Fixpoint deinterleave3 (bits : nat) (m : Z) : Z * Z * Z :=
  match bits with
  | O => (0, 0, 0)
  | S b =>
      let '(x, y, z) := deinterleave3 b (m / 8) in
      (m mod 2 + 2 * x, (m / 2) mod 2 + 2 * y, (m / 4) mod 2 + 2 * z)
  end.

(** Modelled from the spec: the cell of one code by the missing kernel. *)
Definition decode (m : Z) : Z * Z * Z := deinterleave3 11 m.

(** Lines 186-195 and 212-221: the wrappers apply the kernel to each of
    the [N] rows. *)
Definition morton3D (coords : list (Z * Z * Z)) : list Z :=
  map (fun c => encode (fst (fst c)) (snd (fst c)) (snd c)) coords.

Definition morton3D_invert (indices : list Z) : list (Z * Z * Z) :=
  map decode indices.

(** The valid domain [[0,H)³]. *)
Definition valid (H : Z) (c : Z * Z * Z) : Prop :=
  let '(x, y, z) := c in 0 <= x < H /\ 0 <= y < H /\ 0 <= z < H.

(** The property as the design document words it, for a resolution [H]:
    decode undoes encode on the valid domain, and encode is one-to-one
    from [[0,H)³] onto [[0,H³)]. *)
Definition round_trip_and_bijection (H : Z) : Prop :=
  (forall c, valid H c ->
     morton3D_invert (morton3D [c]) = [c]
     /\ 0 <= encode (fst (fst c)) (snd (fst c)) (snd c) < H ^ 3)
  /\ (forall m, 0 <= m < H ^ 3 ->
        exists c, valid H c /\ morton3D [c] = [m]).

End Morton.

(** ** [_packbits] *)
Module Packbits.

(** Modelled from the spec: the kernel [_backend.packbits] is not in the
    Python file.  The design document has 8 consecutive cells packed
    into one byte, bit [b] of byte [n] being cell [8n + b] and set iff
    the cell is above the threshold; the kernel stores the first [N]
    bytes of the bit field. *)
Definition occupied (grid : list f32) (thresh : f32) (i : nat) : bool :=
  match grid !! i with
  | Some g => F32.gtb g thresh
  | None => false
  end.

(** Modelled from the spec: one step of the missing packing kernel, bit
    [b] of byte [n] is set iff cell [8n + b] is above the threshold. *)
Definition set_bit (grid : list f32) (thresh : f32) (n b : nat) (acc : Z)
    : Z :=
  if occupied grid thresh (8 * n + b) then Z.lor (2 ^ Z.of_nat b) acc
  else acc.

(** Modelled from the spec: byte [n] of the missing packing kernel, the
    8 consecutive cells from [8n] on. *)
Definition pack_byte (grid : list f32) (thresh : f32) (n : nat) : Z :=
  fold_right (set_bit grid thresh n) 0 (seq 0 8).

(** Modelled from the spec: the store of the missing packing kernel,
    [bitfield[n] = bits]. *)
Definition store_byte (grid : list f32) (thresh : f32) (bitfield : list Z)
    (n : nat) : list Z :=
  <[n := pack_byte grid thresh n]> bitfield.

(** Modelled from the spec: the missing kernel [_backend.packbits], which
    packs the first [N] bytes of the bit field. *)
Definition packbits_kernel (grid : list f32) (N : Z) (thresh : f32)
    (bitfield : list Z) : list Z :=
  fold_left (store_byte grid thresh) (seq 0 (Z.to_nat N)) bitfield.

(** [torch.empty(N, dtype=torch.uint8)]: the contents are unspecified;
    zeros stand for them. *)
Definition torch_empty (N : Z) : result (list Z) :=
  if N <? 0 then Err (NegativeDimension N)
  else Ok (replicate (Z.to_nat N) 0).

(** Lines 240-253.  [grid] is the [C, H3] tensor as its [C] rows;
    [grid.shape[1]] is the length of a row. *)
Definition forward (grid : buffer) (thresh : f32)
    (bitfield : option (list Z)) : result (list Z) :=
  let C := Z.of_nat (length grid) in
  let H3 := Z.of_nat (length (hd [] grid)) in
  let N := C * H3 / 8 in
  let* bitfield :=
    match bitfield with
    | None => torch_empty N
    | Some b => Ok b
    end in
  Ok (packbits_kernel (concat grid) N thresh bitfield).

(** Lines 240-253 again, for any kernel behind [_backend.packbits]: a
    kernel that fills the bit field it is handed. *)
Definition forward_with
    (kernel : list f32 -> Z -> f32 -> list Z -> list Z)
    (grid : buffer) (thresh : f32) (bitfield : option (list Z))
    : result (list Z) :=
  let C := Z.of_nat (length grid) in
  let H3 := Z.of_nat (length (hd [] grid)) in
  let N := C * H3 / 8 in
  let* bitfield :=
    match bitfield with
    | None => torch_empty N
    | Some b => Ok b
    end in
  Ok (kernel (concat grid) N thresh bitfield).

End Packbits.

(** ** [_compact_rays] *)
Module CompactRays.

Record state : Type := {
  rays_alive : list Z;
  rays_t : list f32;
  alive_counter : Z
}.

(** Modelled from the spec: a ray is dead when its [rays_t] is below
    zero (the test is in the missing kernel). *)
Definition dead (t : f32) : bool := F32.ltb t F32.zero.

(** Modelled from the spec: the kernel [_backend.compact_rays] is not in
    the Python file.  The design document has the rays with
    [rays_t < 0] removed and the others moved to the front in their
    order, each survivor taking its slot from a counter by
    fetch-and-add; the model visits the first [n_alive] entries in
    order. *)
Definition compact_step (rays_alive_old : list Z) (rays_t_old : list f32)
    (s : state) (n : nat) : state :=
  match rays_alive_old !! n, rays_t_old !! n with
  | Some id, Some t =>
      if dead t then s
      else
        let index := Z.to_nat (alive_counter s) in
        {| rays_alive := <[index := id]> (rays_alive s);
           rays_t := <[index := t]> (rays_t s);
           alive_counter := alive_counter s + 1 |}
  | _, _ => s
  end.

(** Modelled from the spec: the missing kernel [_backend.compact_rays]
    over the first [n_alive] entries. *)
Definition compact_rays_kernel (n_alive : Z) (rays_alive : list Z)
    (rays_alive_old : list Z) (rays_t : list f32)
    (rays_t_old : list f32) (alive_counter : Z) : state :=
  fold_left (compact_step rays_alive_old rays_t_old)
            (seq 0 (Z.to_nat n_alive))
            {| rays_alive := rays_alive; rays_t := rays_t;
               alive_counter := alive_counter |}.

(** Lines 578-580: the wrapper passes its arguments on; the in-place
    outputs are the state the kernel leaves. *)
Definition forward (n_alive : Z) (rays_alive rays_alive_old : list Z)
    (rays_t rays_t_old : list f32) (alive_counter : Z) : state :=
  compact_rays_kernel n_alive rays_alive rays_alive_old rays_t
                      rays_t_old alive_counter.

(** The survivors among the first [n] entries, in their order: what the
    design document wants at the front of the arrays. *)
Definition survivors (n : nat) (rays_alive_old : list Z)
    (rays_t_old : list f32) : list (Z * f32) :=
  List.filter (fun p => negb (dead (snd p)))
              (take n (zip rays_alive_old rays_t_old)).

End CompactRays.

(** ** Rounding up, as the design document words the padding

    "Rounded up to a multiple of [align]": the least multiple of [align]
    that is not below [n].  This is the reading the padding of the code is
    compared with. *)
Definition round_up_to_multiple (n align : Z) : Z :=
  align * ((n + align - 1) / align).

(** ** Kernels for the examples

    Concrete kernels to run the wrappers on. *)
Module Fixtures.

Definition ones (c : nat) : row := replicate c F32.one.

(** A training kernel whose only ray emits [count] samples from offset 0,
    as many of them as fit into the [M] rows, and which adds what it
    emitted to the counters it was given. *)
Definition emit_train (count : nat) : MarchRaysTrain.kernel :=
  fun inp =>
    let n := Nat.min count (Z.to_nat (MarchRaysTrain.k_M inp)) in
    let c := MarchRaysTrain.k_step_counter inp in
    {| MarchRaysTrain.w_xyzs := map (fun i => (i, ones 3)) (seq 0 n);
       MarchRaysTrain.w_dirs := map (fun i => (i, ones 3)) (seq 0 n);
       MarchRaysTrain.w_deltas := map (fun i => (i, ones 2)) (seq 0 n);
       MarchRaysTrain.w_ts := map (fun i => (i, ones 1)) (seq 0 n);
       MarchRaysTrain.e_rays := [(0, 0, Z.of_nat count)];
       MarchRaysTrain.e_step_counter :=
         (fst c + Z.of_nat count, snd c + 1) |}.

(** An inference kernel that fills the first [n_alive * n_step] rows. *)
Definition fill_infer : MarchRays.kernel :=
  fun inp =>
    let n := Z.to_nat (MarchRays.k_n_alive inp * MarchRays.k_n_step inp) in
    {| MarchRays.w_xyzs := map (fun i => (i, ones 3)) (seq 0 n);
       MarchRays.w_dirs := map (fun i => (i, ones 3)) (seq 0 n);
       MarchRays.w_deltas := map (fun i => (i, ones 2)) (seq 0 n) |}.

(** One ray from [(-2, 0, 0)] along [(1, 0, 0)]. *)
Definition origin : row := [F32.of_Z (-2); F32.zero; F32.zero].
Definition direction : row := [F32.one; F32.zero; F32.zero].

(** The box [[-1, 1]³] and two rays along the x axis: one from
    [(-2, 0, 0)], which enters through [xmin] (index 0) and leaves
    through [xmax] (index 3), and one from [(2, 0, 0)], which points away
    from the box and carries the sentinel. *)
Definition unit_box : NearFar.aabb :=
  {| NearFar.xmin := F32.of_Z (-1); NearFar.ymin := F32.of_Z (-1);
     NearFar.zmin := F32.of_Z (-1); NearFar.xmax := F32.one;
     NearFar.ymax := F32.one; NearFar.zmax := F32.one |}.

Definition hit_ray : NearFar.ray :=
  {| NearFar.rays_o := (F32.of_Z (-2), F32.zero, F32.zero);
     NearFar.rays_d := (F32.one, F32.zero, F32.zero);
     NearFar.near_index := 0; NearFar.far_index := 3;
     NearFar.dL_dnear := F32.one; NearFar.dL_dfar := F32.zero |}.

Definition missed_ray : NearFar.ray :=
  {| NearFar.rays_o := (F32.of_Z 2, F32.zero, F32.zero);
     NearFar.rays_d := (F32.one, F32.zero, F32.zero);
     NearFar.near_index := 255; NearFar.far_index := 255;
     NearFar.dL_dnear := F32.one; NearFar.dL_dfar := F32.one |}.

(** A ray with no zero component in its direction. *)
Definition slanted_ray : NearFar.ray :=
  {| NearFar.rays_o := (F32.of_Z (-2), F32.zero, F32.zero);
     NearFar.rays_d := (F32.of_Z 2, F32.one, F32.one);
     NearFar.near_index := 0; NearFar.far_index := 3;
     NearFar.dL_dnear := F32.one; NearFar.dL_dfar := F32.zero |}.

End Fixtures.

(* ===================================================================== *)
(** * Part II: properties                                                 *)
(* ===================================================================== *)

(** ** Padding arithmetic *)

(** [round_up_to_multiple] is the least multiple of [align] not below [n]. *)
Lemma round_up_to_multiple_spec (n align : Z) :
  0 < align ->
  (align | round_up_to_multiple n align)
  /\ n <= round_up_to_multiple n align < n + align
  /\ (forall k, (align | k) -> n <= k -> round_up_to_multiple n align <= k).
Proof.
  intros Ha. unfold round_up_to_multiple.
  split; [ apply Z.divide_factor_l | ].
  pose proof (Z.div_mod (n + align - 1) align ltac:(lia)) as Hdm.
  pose proof (Z.mod_pos_bound (n + align - 1) align Ha) as Hb.
  split; [ lia | ].
  intros k [q ->] Hk.
  assert (Hq : (n + align - 1) / align <= q).
  { apply Z.lt_succ_r. apply Z.div_lt_upper_bound; [ lia | nia ]. }
  nia.
Qed.

(** The padding of the code lands on the least multiple of [align] that is
    strictly above [n]: between 1 and [align] rows are added. *)
Lemma pad_to_align_spec (n align : Z) :
  0 < align ->
  (align | pad_to_align n align)
  /\ n < pad_to_align n align <= n + align
  /\ (forall k, (align | k) -> n < k -> pad_to_align n align <= k).
Proof.
  intros Ha. unfold pad_to_align.
  pose proof (Z.div_mod n align ltac:(lia)) as Hdm.
  pose proof (Z.mod_pos_bound n align Ha) as Hb.
  split.
  { exists (n / align + 1). lia. }
  split; [ lia | ].
  intros k [q ->] Hk.
  assert (Hq : n / align + 1 <= q).
  { assert (n / align < q); [ | lia ].
    apply Z.div_lt_upper_bound; [ lia | nia ]. }
  nia.
Qed.

(** The two agree except on the multiples of [align], where the code adds
    a whole block. *)
Lemma pad_to_align_round_up (n align : Z) :
  0 < align ->
  pad_to_align n align =
    if n mod align =? 0 then round_up_to_multiple n align + align
    else round_up_to_multiple n align.
Proof.
  intros Ha.
  destruct (round_up_to_multiple_spec n align Ha) as (Hd & Hr & Hmin).
  destruct (pad_to_align_spec n align Ha) as (Hd' & Hr' & Hmin').
  destruct (Z.eqb_spec (n mod align) 0) as [E | E].
  - unfold pad_to_align. rewrite E.
    assert (align | n) by (apply Z.mod_divide; [ lia | exact E ]).
    specialize (Hmin n H ltac:(lia)). lia.
  - assert (n < round_up_to_multiple n align).
    { destruct (Z.eq_dec n (round_up_to_multiple n align)) as [E' | ]; [ | lia ].
      exfalso. apply E. apply Z.mod_divide; [ lia | ]. now rewrite E'. }
    specialize (Hmin' _ Hd H).
    specialize (Hmin _ Hd' ltac:(lia)). lia.
Qed.

(** ** Buffers *)

Lemma torch_zeros_ok (M : Z) (c : nat) :
  0 <= M -> torch_zeros M c = Ok (replicate (Z.to_nat M) (zero_row c)).
Proof.
  intros H. unfold torch_zeros.
  destruct (Z.ltb_spec M 0); [ lia | reflexivity ].
Qed.

Lemma torch_zeros_inv (M : Z) (c : nat) (b : buffer) :
  torch_zeros M c = Ok b ->
  0 <= M /\ b = replicate (Z.to_nat M) (zero_row c).
Proof.
  unfold torch_zeros. destruct (Z.ltb_spec M 0); [ discriminate | ].
  intros [= <-]. split; [ lia | reflexivity ].
Qed.

Lemma length_apply_writes (ws : writes) (buf : buffer) :
  length (apply_writes ws buf) = length buf.
Proof.
  unfold apply_writes. revert buf.
  induction ws as [ | w ws IH]; intros buf; simpl; [ reflexivity | ].
  rewrite IH. apply length_insert.
Qed.

(** A row that no store addresses keeps its contents. *)
Lemma apply_writes_untouched (ws : writes) (buf : buffer) (i : nat) :
  i ∉ written ws -> apply_writes ws buf !! i = buf !! i.
Proof.
  unfold apply_writes, written. revert buf.
  induction ws as [ | [j r] ws IH]; intros buf Hi; simpl in *;
    [ reflexivity | ].
  apply not_elem_of_cons in Hi as [Hij Hi].
  rewrite IH by exact Hi.
  apply list_lookup_insert_ne. congruence.
Qed.

Lemma length_slice_to {A} (m : Z) (buf : list A) :
  0 <= m <= Z.of_nat (length buf) ->
  Z.of_nat (length (slice_to m buf)) = m.
Proof.
  intros H. unfold slice_to, slice_stop.
  destruct (Z.ltb_spec m 0); [ lia | ].
  rewrite length_take. lia.
Qed.

(** In general a slice has as many rows as the buffer can give. *)
Lemma length_slice_to_clamped {A} (m : Z) (buf : list A) :
  0 <= m ->
  Z.of_nat (length (slice_to m buf)) = Z.min m (Z.of_nat (length buf)).
Proof.
  intros H. unfold slice_to, slice_stop.
  destruct (Z.ltb_spec m 0); [ lia | ].
  rewrite length_take. lia.
Qed.

(** ** The training marcher: capacity, trimming, zero rows *)
Section MarchRaysTrainForward.
Import MarchRaysTrain.

Variable kernel : MarchRaysTrain.kernel.
Variables (rays_o rays_d : buffer) (bound : f32).
Variables (density_bitfield : list Z) (C H : Z) (nears fars : list f32).
Variables (step_counter : option (Z * Z)) (perturb : bool).
Variables (dt_gamma : f32).

Let N : Z := Z.of_nat (length rays_o).

Let run (mean_count align : Z) (force_all_rays : bool) (max_steps : Z) :=
  march kernel rays_o rays_d bound density_bitfield C H nears fars
        step_counter mean_count perturb align force_all_rays dt_gamma
        max_steps.

Let call (mean_count align : Z) (force_all_rays : bool) (max_steps : Z) :=
  forward kernel rays_o rays_d bound density_bitfield C H nears fars
          step_counter mean_count perturb align force_all_rays dt_gamma
          max_steps.

Lemma allocate_inv (M : Z) (x d dl t : buffer) :
  allocate M = Ok (x, d, dl, t) ->
  0 <= M
  /\ x = replicate (Z.to_nat M) (zero_row 3)
  /\ d = replicate (Z.to_nat M) (zero_row 3)
  /\ dl = replicate (Z.to_nat M) (zero_row 2)
  /\ t = replicate (Z.to_nat M) (zero_row 1).
Proof.
  unfold allocate, torch_zeros.
  destruct (Z.ltb_spec M 0); simpl; [ discriminate | ].
  intros [= <- <- <- <-]. repeat split; lia || reflexivity.
Qed.

Lemma allocate_ok (M : Z) :
  0 <= M ->
  allocate M = Ok (replicate (Z.to_nat M) (zero_row 3),
                   replicate (Z.to_nat M) (zero_row 3),
                   replicate (Z.to_nat M) (zero_row 2),
                   replicate (Z.to_nat M) (zero_row 1)).
Proof.
  intros HM. unfold allocate. now rewrite !torch_zeros_ok by exact HM.
Qed.

(** What [march] leaves: the capacity of line 325, zero buffers of that
    many rows with the stores of the kernel applied. *)
Lemma march_inv (mean_count align : Z) (force_all_rays : bool)
    (max_steps : Z) (s : marched) :
  run mean_count align force_all_rays max_steps = Ok s ->
  (m_mean_count s, m_M s) =
    capacity N max_steps mean_count align force_all_rays
  /\ 0 <= m_M s
  /\ m_xyzs s = apply_writes (w_xyzs (m_effect s))
                  (replicate (Z.to_nat (m_M s)) (zero_row 3))
  /\ m_dirs s = apply_writes (w_dirs (m_effect s))
                  (replicate (Z.to_nat (m_M s)) (zero_row 3))
  /\ m_deltas s = apply_writes (w_deltas (m_effect s))
                    (replicate (Z.to_nat (m_M s)) (zero_row 2))
  /\ m_ts s = apply_writes (w_ts (m_effect s))
                (replicate (Z.to_nat (m_M s)) (zero_row 1)).
Proof.
  unfold run, march. fold N.
  destruct (capacity N max_steps mean_count align force_all_rays)
    as [mc M] eqn:Hcap.
  destruct (allocate M) as [[[[x d] dl] t] | e] eqn:Hal; simpl;
    [ | discriminate ].
  apply allocate_inv in Hal as (HM & -> & -> & -> & ->).
  intros [= <-]. simpl. repeat split; try reflexivity. exact HM.
Qed.

Lemma march_ok (mean_count align : Z) (force_all_rays : bool)
    (max_steps : Z) :
  0 <= snd (capacity N max_steps mean_count align force_all_rays) ->
  exists s, run mean_count align force_all_rays max_steps = Ok s.
Proof.
  unfold run, march. fold N.
  destruct (capacity N max_steps mean_count align force_all_rays)
    as [mc M] eqn:Hcap. simpl. intros HM.
  rewrite (allocate_ok M HM). simpl. eexists. reflexivity.
Qed.

Lemma marched_lengths (mean_count align : Z) (force_all_rays : bool)
    (max_steps : Z) (s : marched) :
  run mean_count align force_all_rays max_steps = Ok s ->
  length (m_xyzs s) = Z.to_nat (m_M s)
  /\ length (m_dirs s) = Z.to_nat (m_M s)
  /\ length (m_deltas s) = Z.to_nat (m_M s)
  /\ length (m_ts s) = Z.to_nat (m_M s).
Proof.
  intros Hs. apply march_inv in Hs as (_ & _ & -> & -> & -> & ->).
  rewrite !length_apply_writes, !length_replicate. auto.
Qed.

Lemma capacity_amortized (mean_count align max_steps : Z) :
  0 < mean_count ->
  capacity N max_steps mean_count align false =
    (if 0 <? align then pad_to_align mean_count align else mean_count,
     if 0 <? align then pad_to_align mean_count align else mean_count).
Proof.
  intros Hm. unfold capacity. simpl.
  destruct (Z.ltb_spec 0 mean_count); [ reflexivity | lia ].
Qed.

Lemma capacity_default (mean_count align max_steps : Z)
    (force_all_rays : bool) :
  force_all_rays = true \/ mean_count <= 0 ->
  capacity N max_steps mean_count align force_all_rays =
    (mean_count, N * max_steps).
Proof.
  intros Hc. unfold capacity.
  destruct force_all_rays; simpl; [ reflexivity | ].
  destruct Hc as [ | Hc]; [ discriminate | ].
  destruct (Z.ltb_spec 0 mean_count); [ lia | reflexivity ].
Qed.

(** C4 (as amended).  The capacity [M] is [N * max_steps] when
    [force_all_rays] is set or [mean_count] is not positive.  In the
    amortized mode it is [mean_count] when [align <= 0], and for
    [align > 0] it is [mean_count + align - mean_count % align]: the
    least multiple of [align] strictly above [mean_count], which is
    [mean_count] rounded up whenever [mean_count] is not a multiple of
    [align] and a whole block more when it is.  The four sample buffers
    are allocated with exactly [M] rows whenever the call returns, and
    it returns whenever [M] is not negative. *)
Theorem march_rays_train_capacity (mean_count align : Z)
    (force_all_rays : bool) (max_steps : Z) :
  let M := snd (capacity N max_steps mean_count align force_all_rays) in
  (force_all_rays = true \/ mean_count <= 0 -> M = N * max_steps)
  /\ (force_all_rays = false -> 0 < mean_count -> align <= 0 ->
      M = mean_count)
  /\ (force_all_rays = false -> 0 < mean_count -> 0 < align ->
      M = mean_count + (align - mean_count mod align)
      /\ (align | M)
      /\ mean_count < M <= mean_count + align
      /\ (forall k, (align | k) -> mean_count < k -> M <= k)
      /\ (mean_count mod align <> 0 ->
          M = round_up_to_multiple mean_count align)
      /\ (mean_count mod align = 0 -> M = mean_count + align))
  /\ (0 <= M ->
      exists s, run mean_count align force_all_rays max_steps = Ok s)
  /\ (forall s,
        run mean_count align force_all_rays max_steps = Ok s ->
        m_M s = M
        /\ Z.of_nat (length (m_xyzs s)) = M
        /\ Z.of_nat (length (m_dirs s)) = M
        /\ Z.of_nat (length (m_deltas s)) = M).
Proof.
  intros M. subst M. split; [ | split; [ | split; [ | split ] ] ].
  - intros Hc. now rewrite capacity_default.
  - intros -> Hm Ha. rewrite capacity_amortized by exact Hm. simpl.
    destruct (Z.ltb_spec 0 align); [ lia | reflexivity ].
  - intros -> Hm Ha. rewrite capacity_amortized by exact Hm. simpl.
    destruct (Z.ltb_spec 0 align); [ | lia ].
    destruct (pad_to_align_spec mean_count align Ha) as (Hd & Hr & Hmin).
    repeat split; try tauto; try lia.
    + intros Hne. rewrite pad_to_align_round_up by exact Ha.
      destruct (Z.eqb_spec (mean_count mod align) 0);
        [ lia | reflexivity ].
    + intros He. unfold pad_to_align. lia.
  - apply march_ok.
  - intros s Hs.
    pose proof (marched_lengths _ _ _ _ _ Hs) as (-> & -> & -> & _).
    apply march_inv in Hs as (Hc & HM & _). rewrite <- Hc. simpl.
    repeat split; lia.
Qed.

(** The assignment at line 324 does not change the outcome of the test
    at line 347. *)
Lemma trims_after_capacity (mean_count align : Z) (force_all_rays : bool)
    (max_steps : Z) :
  trims force_all_rays
        (fst (capacity N max_steps mean_count align force_all_rays))
  = force_all_rays || (mean_count <=? 0).
Proof.
  unfold trims, capacity.
  destruct force_all_rays; simpl; [ reflexivity | ].
  destruct (Z.ltb_spec 0 mean_count) as [Hm | Hm]; simpl;
    [ | reflexivity ].
  destruct (Z.ltb_spec 0 align) as [Ha | Ha].
  - destruct (pad_to_align_spec mean_count align Ha) as (_ & Hr & _).
    destruct (Z.leb_spec (pad_to_align mean_count align) 0),
             (Z.leb_spec mean_count 0); lia || reflexivity.
  - reflexivity.
Qed.

Lemma forward_inv (mean_count align : Z) (force_all_rays : bool)
    (max_steps : Z) (out : output) :
  call mean_count align force_all_rays max_steps = Ok out ->
  exists s, run mean_count align force_all_rays max_steps = Ok s
            /\ out = finish force_all_rays align s.
Proof.
  unfold call, forward, run.
  destruct (march _ _ _ _ _ _ _ _ _ _ _ _ _ _ _ _) as [s | e]; simpl;
    [ | discriminate ].
  intros [= <-]. exists s. split; reflexivity.
Qed.

(** C5 (as amended).  When [force_all_rays] is set or [mean_count] is
    not positive, the three outputs are the slices [[:m]] of the buffers
    the kernel filled, where [m] is [step_counter[0]] when [align <= 0]
    and [step_counter[0] + align - step_counter[0] % align] when
    [align > 0], the least multiple of [align] strictly above the
    counter; as long as [m] does not exceed the capacity the outputs
    have exactly [m] rows.  On the other path the outputs are the
    buffers themselves, with all their rows.  The call returns whenever
    the capacity is not negative. *)
Theorem march_rays_train_trim (mean_count align : Z)
    (force_all_rays : bool) (max_steps : Z) :
  (0 <= snd (capacity N max_steps mean_count align force_all_rays) ->
   exists out, call mean_count align force_all_rays max_steps = Ok out)
  /\ forall out,
  call mean_count align force_all_rays max_steps = Ok out ->
  exists s,
    run mean_count align force_all_rays max_steps = Ok s
    /\ let c0 := fst (e_step_counter (m_effect s)) in
       let m := trim_count c0 align in
       (force_all_rays = true \/ mean_count <= 0 ->
          xyzs out = slice_to m (m_xyzs s)
          /\ dirs out = slice_to m (m_dirs s)
          /\ deltas out = slice_to m (m_deltas s)
          /\ (align <= 0 -> m = c0)
          /\ (0 < align ->
              m = c0 + (align - c0 mod align)
              /\ (align | m) /\ c0 < m <= c0 + align
              /\ (forall k, (align | k) -> c0 < k -> m <= k))
          /\ (0 <= m <= m_M s ->
              Z.of_nat (length (xyzs out)) = m
              /\ Z.of_nat (length (dirs out)) = m
              /\ Z.of_nat (length (deltas out)) = m))
       /\ (force_all_rays = false -> 0 < mean_count ->
           xyzs out = m_xyzs s /\ dirs out = m_dirs s
           /\ deltas out = m_deltas s
           /\ Z.of_nat (length (xyzs out)) = m_M s
           /\ Z.of_nat (length (dirs out)) = m_M s
           /\ Z.of_nat (length (deltas out)) = m_M s).
Proof.
  split.
  { intros HM. destruct (march_ok _ _ _ _ HM) as [s Hs].
    exists (finish force_all_rays align s). unfold call, forward.
    fold (run mean_count align force_all_rays max_steps).
    now rewrite Hs. }
  intros out Hcall.
  destruct (forward_inv _ _ _ _ _ Hcall) as (s & Hs & ->).
  exists s. split; [ exact Hs | ].
  pose proof (marched_lengths _ _ _ _ _ Hs) as (Lx & Ld & Ldl & _).
  pose proof (march_inv _ _ _ _ _ Hs) as (Hcap & HM & _).
  assert (Htr : trims force_all_rays (m_mean_count s)
                = force_all_rays || (mean_count <=? 0)).
  { rewrite <- trims_after_capacity with (align := align)
                                          (max_steps := max_steps).
    now rewrite <- Hcap. }
  cbv zeta. unfold finish. rewrite Htr. split.
  - intros Hc.
    assert (force_all_rays || (mean_count <=? 0) = true) as ->.
    { destruct Hc as [-> | Hc]; [ reflexivity | ].
      apply orb_true_iff. right. now apply Z.leb_le. }
    simpl. split; [ reflexivity | ]. split; [ reflexivity | ].
    split; [ reflexivity | ]. split; [ | split ].
    + intros Ha. unfold trim_count.
      destruct (Z.ltb_spec 0 align); [ lia | reflexivity ].
    + intros Ha. unfold trim_count.
      destruct (Z.ltb_spec 0 align); [ | lia ].
      split; [ reflexivity | ]. now apply pad_to_align_spec.
    + intros Hr. rewrite !length_slice_to by lia. auto.
  - intros -> Hm.
    assert (false || (mean_count <=? 0) = false) as ->.
    { simpl. apply Z.leb_gt. exact Hm. }
    simpl. repeat split; try reflexivity; lia.
Qed.

(** C10.  In the amortized mode ([force_all_rays] false, [mean_count]
    positive) the call returns, the three outputs keep all [M] rows of
    the allocation whatever the kernel counted, and every row the kernel
    did not store into is a row of zeros. *)
Theorem march_rays_train_amortized (mean_count align max_steps : Z) :
  0 < mean_count ->
  exists out s,
    call mean_count align false max_steps = Ok out
    /\ run mean_count align false max_steps = Ok s
    /\ m_M s = snd (capacity N max_steps mean_count align false)
    /\ length (xyzs out) = Z.to_nat (m_M s)
    /\ length (dirs out) = Z.to_nat (m_M s)
    /\ length (deltas out) = Z.to_nat (m_M s)
    /\ forall i : nat,
         (i < Z.to_nat (m_M s))%nat ->
         (i ∉ written (w_xyzs (m_effect s)) ->
            xyzs out !! i = Some (zero_row 3))
         /\ (i ∉ written (w_dirs (m_effect s)) ->
               dirs out !! i = Some (zero_row 3))
         /\ (i ∉ written (w_deltas (m_effect s)) ->
               deltas out !! i = Some (zero_row 2)).
Proof.
  intros Hm.
  assert (HM : 0 <= snd (capacity N max_steps mean_count align false)).
  { rewrite capacity_amortized by exact Hm. simpl.
    destruct (Z.ltb_spec 0 align) as [Ha | Ha]; [ | lia ].
    destruct (pad_to_align_spec mean_count align Ha) as (_ & Hr & _).
    lia. }
  destruct (march_ok _ _ _ _ HM) as [s Hs].
  exists (finish false align s), s.
  pose proof (marched_lengths _ _ _ _ _ Hs) as (Lx & Ld & Ldl & _).
  pose proof (march_inv _ _ _ _ _ Hs) as (Hcap & _ & Ex & Ed & Edl & _).
  assert (Htr : trims false (m_mean_count s) = false).
  { replace (m_mean_count s)
      with (fst (capacity N max_steps mean_count align false))
      by now rewrite <- Hcap.
    rewrite trims_after_capacity. simpl. apply Z.leb_gt. exact Hm. }
  split.
  { unfold call, forward. fold (run mean_count align false max_steps).
    now rewrite Hs. }
  split; [ exact Hs | ].
  split; [ now rewrite <- Hcap | ].
  unfold finish. rewrite Htr. simpl.
  split; [ exact Lx | ]. split; [ exact Ld | ]. split; [ exact Ldl | ].
  intros i Hi. repeat split; intros Hw.
  - rewrite Ex, apply_writes_untouched by exact Hw.
    now apply lookup_replicate_2.
  - rewrite Ed, apply_writes_untouched by exact Hw.
    now apply lookup_replicate_2.
  - rewrite Edl, apply_writes_untouched by exact Hw.
    now apply lookup_replicate_2.
Qed.

End MarchRaysTrainForward.

(** *** The training marcher on concrete calls *)

(** C4 witness: 100 expected samples and [align = 128] give 128 rows, and
    the default gives [N * max_steps]. *)
Lemma march_rays_train_capacity_witness :
  snd (MarchRaysTrain.capacity 1 1024 100 128 false) = 128
  /\ snd (MarchRaysTrain.capacity 1 1024 (-1) 128 false) = 1 * 1024.
Proof.
  pose proof (march_rays_train_capacity (Fixtures.emit_train 8)
                [Fixtures.origin] [Fixtures.direction] F32.one [] 1 2
                [F32.one] [F32.one] None false F32.zero 100 128 false 1024)
    as (_ & _ & H & _).
  pose proof (march_rays_train_capacity (Fixtures.emit_train 8)
                [Fixtures.origin] [Fixtures.direction] F32.one [] 1 2
                [F32.one] [F32.one] None false F32.zero (-1) 128 false 1024)
    as (H' & _).
  split.
  - specialize (H eq_refl ltac:(lia) ltac:(lia)).
    destruct H as (H & _). exact H.
  - apply H'. right. lia.
Defined.

(** C4 counterexample: an estimate of 8 with [align = 8] is already a
    multiple of [align], so rounding it up leaves 8; the capacity is 16. *)
Lemma march_rays_train_capacity_counterexample :
  snd (MarchRaysTrain.capacity 1 1024 8 8 false) = 16
  /\ round_up_to_multiple 8 8 = 8
  /\ snd (MarchRaysTrain.capacity 1 1024 8 8 false)
     <> round_up_to_multiple 8 8.
Proof.
  split; [ reflexivity | ]. split; [ reflexivity | ].
  vm_compute. discriminate.
Qed.

(** C5 witness: no estimate, 5 samples emitted, [align = 4]: 8 rows. *)
Lemma march_rays_train_trim_witness :
  exists out,
    MarchRaysTrain.forward (Fixtures.emit_train 5)
      [Fixtures.origin] [Fixtures.direction] F32.one [] 1 2
      [F32.one] [F32.one] None (-1) false 4 false F32.zero 16 = Ok out
    /\ length (MarchRaysTrain.xyzs out) = 8%nat
    /\ length (MarchRaysTrain.dirs out) = 8%nat
    /\ length (MarchRaysTrain.deltas out) = 8%nat.
Proof.
  eexists. split; [ reflexivity | ].
  destruct (march_rays_train_trim (Fixtures.emit_train 5)
              [Fixtures.origin] [Fixtures.direction] F32.one [] 1 2
              [F32.one] [F32.one] None false F32.zero (-1) 4 false 16)
    as (_ & Hspec).
  destruct (Hspec _ eq_refl) as (s & Hs & Htrim & _).
  injection Hs as <-.
  specialize (Htrim ltac:(right; lia)).
  destruct Htrim as (_ & _ & _ & _ & _ & Hlen).
  specialize (Hlen ltac:(vm_compute; split; discriminate)).
  destruct Hlen as (Hx & Hd & Hdl).
  split; [ | split ]; apply Nat2Z.inj; [ exact Hx | exact Hd | exact Hdl ].
Defined.

(** C5 counterexample: no estimate, 8 samples emitted, [align = 8].  The
    emitted count is a multiple of [align], so rounded to a multiple of
    [align] it is 8; the outputs have 16 rows. *)
Lemma march_rays_train_trim_counterexample :
  exists out,
    MarchRaysTrain.forward (Fixtures.emit_train 8)
      [Fixtures.origin] [Fixtures.direction] F32.one [] 1 2
      [F32.one] [F32.one] None (-1) false 8 false F32.zero 1024 = Ok out
    /\ round_up_to_multiple 8 8 = 8
    /\ Z.of_nat (length (MarchRaysTrain.xyzs out)) = 16
    /\ Z.of_nat (length (MarchRaysTrain.xyzs out))
       <> round_up_to_multiple 8 8.
Proof.
  eexists. split; [ vm_compute; reflexivity | ].
  split; [ reflexivity | ]. split; [ reflexivity | ].
  vm_compute. discriminate.
Qed.

(** When the padded count exceeds the capacity the slice gives what the
    buffer has: one ray, [max_steps = 4], 4 samples emitted, [align = 8]
    return 4 rows. *)
Example march_rays_train_trim_clamped :
  exists out,
    MarchRaysTrain.forward (Fixtures.emit_train 4)
      [Fixtures.origin] [Fixtures.direction] F32.one [] 1 2
      [F32.one] [F32.one] None (-1) false 8 false F32.zero 4 = Ok out
    /\ length (MarchRaysTrain.xyzs out) = 4%nat.
Proof. eexists. split; vm_compute; reflexivity. Qed.

(** C10 witness: an estimate of 6 with [align = 4] and 3 samples emitted:
    8 rows come back and row 5 is zero. *)
Lemma march_rays_train_amortized_witness :
  0 < 6
  /\ exists out,
       MarchRaysTrain.forward (Fixtures.emit_train 3)
         [Fixtures.origin] [Fixtures.direction] F32.one [] 1 2
         [F32.one] [F32.one] None 6 false 4 false F32.zero 16 = Ok out
       /\ length (MarchRaysTrain.xyzs out) = 8%nat
       /\ MarchRaysTrain.xyzs out !! 5%nat = Some (zero_row 3).
Proof.
  split; [ lia | ].
  destruct (march_rays_train_amortized (Fixtures.emit_train 3)
              [Fixtures.origin] [Fixtures.direction] F32.one [] 1 2
              [F32.one] [F32.one] None false F32.zero 6 4 16 ltac:(lia))
    as (out & s & Hout & Hs & HM & Lx & _ & _ & Hz).
  exists out. split; [ exact Hout | ].
  injection Hs as <-.
  split; [ exact Lx | ].
  apply (Hz 5%nat); [ vm_compute; lia | ].
  vm_compute. intros H. repeat (apply elem_of_cons in H as [H | H];
                                [ discriminate | ]).
  now apply elem_of_nil in H.
Defined.

(** ** The inference marcher: the size of a chunk *)

Lemma march_rays_forward_inv (kernel : MarchRays.kernel)
    (n_alive n_step : Z) (rays_alive : list Z) (rays_t : list f32)
    (rays_o rays_d : buffer) (bound : f32) (density_bitfield : list Z)
    (C H : Z) (near far : list f32) (align : Z) (perturb : bool)
    (dt_gamma : f32) (max_steps : Z) (xyzs dirs deltas : buffer) :
  MarchRays.forward kernel n_alive n_step rays_alive rays_t rays_o rays_d
    bound density_bitfield C H near far align perturb dt_gamma max_steps
  = Ok (xyzs, dirs, deltas) ->
  let M := MarchRays.chunk_size n_alive n_step align in
  0 <= M
  /\ length xyzs = Z.to_nat M /\ length dirs = Z.to_nat M
  /\ length deltas = Z.to_nat M.
Proof.
  intros Hf M. unfold MarchRays.forward, torch_zeros in Hf. fold M in Hf.
  destruct (Z.ltb_spec M 0); simpl in Hf; [ discriminate | ].
  injection Hf as <- <- <-.
  rewrite !length_apply_writes, !length_replicate. repeat split. lia.
Qed.

(** The call returns whenever the chunk size is not negative. *)
Lemma march_rays_forward_ok (kernel : MarchRays.kernel)
    (n_alive n_step : Z) (rays_alive : list Z) (rays_t : list f32)
    (rays_o rays_d : buffer) (bound : f32) (density_bitfield : list Z)
    (C H : Z) (near far : list f32) (align : Z) (perturb : bool)
    (dt_gamma : f32) (max_steps : Z) :
  0 <= MarchRays.chunk_size n_alive n_step align ->
  exists xyzs dirs deltas,
    MarchRays.forward kernel n_alive n_step rays_alive rays_t rays_o
      rays_d bound density_bitfield C H near far align perturb dt_gamma
      max_steps = Ok (xyzs, dirs, deltas).
Proof.
  intros HM. unfold MarchRays.forward.
  rewrite !torch_zeros_ok by exact HM. cbn [bind].
  do 3 eexists. reflexivity.
Qed.

(** C8 (as amended).  A call to the inference marcher with a product
    [n_alive * n_step] that is not negative returns, and a call that
    returns gives three buffers of the same number of rows:
    [n_alive * n_step] when [align <= 0], and [n_alive * n_step + align -
    (n_alive * n_step) % align] when [align > 0], the least multiple of
    [align] strictly above [n_alive * n_step]: between 1 and [align] rows
    of padding, also when the product is a multiple of [align] already. *)
Theorem march_rays_chunk_rows (kernel : MarchRays.kernel)
    (n_alive n_step : Z) (rays_alive : list Z) (rays_t : list f32)
    (rays_o rays_d : buffer) (bound : f32) (density_bitfield : list Z)
    (C H : Z) (near far : list f32) (align : Z) (perturb : bool)
    (dt_gamma : f32) (max_steps : Z) :
  let call :=
    MarchRays.forward kernel n_alive n_step rays_alive rays_t rays_o rays_d
      bound density_bitfield C H near far align perturb dt_gamma
      max_steps in
  (0 <= n_alive * n_step ->
   exists xyzs dirs deltas, call = Ok (xyzs, dirs, deltas))
  /\ forall xyzs dirs deltas,
  call = Ok (xyzs, dirs, deltas) ->
  let rows := Z.of_nat (length xyzs) in
  Z.of_nat (length dirs) = rows
  /\ Z.of_nat (length deltas) = rows
  /\ (align <= 0 -> rows = n_alive * n_step)
  /\ (0 < align ->
      rows = n_alive * n_step + (align - (n_alive * n_step) mod align)
      /\ (align | rows)
      /\ n_alive * n_step < rows <= n_alive * n_step + align
      /\ (forall k, (align | k) -> n_alive * n_step < k -> rows <= k)
      /\ ((n_alive * n_step) mod align <> 0 ->
          rows = round_up_to_multiple (n_alive * n_step) align)
      /\ ((n_alive * n_step) mod align = 0 ->
          rows = n_alive * n_step + align)).
Proof.
  intros call. subst call. split.
  { intros H0. apply march_rays_forward_ok.
    unfold MarchRays.chunk_size.
    destruct (Z.ltb_spec 0 align) as [Ha | Ha]; [ | exact H0 ].
    destruct (pad_to_align_spec (n_alive * n_step) align Ha)
      as (_ & Hr & _).
    lia. }
  intros xyzs dirs deltas Hf.
  apply march_rays_forward_inv in Hf. cbv zeta in Hf.
  destruct Hf as (HM & -> & -> & ->).
  cbv zeta. rewrite Z2Nat.id by exact HM.
  split; [ reflexivity | ]. split; [ reflexivity | ].
  unfold MarchRays.chunk_size. split.
  - intros Ha. destruct (Z.ltb_spec 0 align); [ lia | reflexivity ].
  - intros Ha. destruct (Z.ltb_spec 0 align); [ | lia ].
    destruct (pad_to_align_spec (n_alive * n_step) align Ha)
      as (Hd & Hr & Hmin).
    split; [ reflexivity | ]. split; [ exact Hd | ].
    split; [ exact Hr | ]. split; [ exact Hmin | ]. split.
    + intros Hne. rewrite pad_to_align_round_up by exact Ha.
      destruct (Z.eqb_spec ((n_alive * n_step) mod align) 0);
        [ lia | reflexivity ].
    + intros He. unfold pad_to_align. lia.
Qed.

(** C8 witness: 3 rays of 2 steps with [align = 4] give 8 rows. *)
Lemma march_rays_chunk_rows_witness :
  exists xyzs dirs deltas,
    MarchRays.forward Fixtures.fill_infer 3 2 [0; 1; 2]
      [F32.one; F32.one; F32.one] [] [] F32.one [] 1 2 [] [] 4 false
      F32.zero 16 = Ok (xyzs, dirs, deltas)
    /\ Z.of_nat (length xyzs) = 8
    /\ Z.of_nat (length dirs) = 8 /\ Z.of_nat (length deltas) = 8.
Proof.
  do 3 eexists. split; [ reflexivity | ].
  destruct (march_rays_chunk_rows Fixtures.fill_infer 3 2 [0; 1; 2]
              [F32.one; F32.one; F32.one] [] [] F32.one [] 1 2 [] [] 4
              false F32.zero 16) as (_ & Hspec).
  pose proof (Hspec _ _ _ eq_refl) as (Hd & Hdl & _ & Hr).
  specialize (Hr ltac:(lia)). destruct Hr as (Hr & _).
  split; [ exact Hr | ].
  split; [ rewrite Hd; exact Hr | rewrite Hdl; exact Hr ].
Defined.

(** C8 counterexample: 2 rays of 4 steps with [align = 8].  The 8 rows
    are a multiple of [align] already; the buffers have 16 rows. *)
Lemma march_rays_chunk_rows_counterexample :
  exists xyzs dirs deltas,
    MarchRays.forward Fixtures.fill_infer 2 4 [0; 1] [F32.one; F32.one]
      [] [] F32.one [] 1 2 [] [] 8 false F32.zero 16
    = Ok (xyzs, dirs, deltas)
    /\ round_up_to_multiple (2 * 4) 8 = 2 * 4
    /\ Z.of_nat (length xyzs) = 16
    /\ Z.of_nat (length xyzs) <> round_up_to_multiple (2 * 4) 8.
Proof.
  do 3 eexists. split; [ vm_compute; reflexivity | ].
  split; [ reflexivity | ]. split; [ reflexivity | ].
  vm_compute. discriminate.
Qed.

(** ** The backward pass of the training marcher *)
Section MarchRaysTrainBackwardFacts.
Import Tensor MarchRaysTrainBackward.

Lemma shape_of_rays (rays : list (Z * Z * Z)) :
  shape (of_rays rays) = [length rays; 3%nat].
Proof. unfold of_rays, of_buffer. simpl. now rewrite length_map. Qed.

Lemma slice0_shape {A} (start stop : option Z) (x : t A) (n : nat)
    (rest : list nat) :
  shape x = n :: rest ->
  exists y, slice0 start stop x = Ok y
    /\ shape y =
         ((match stop with Some i => slice_bound n i | None => n end)
          - (match start with Some i => slice_bound n i | None => 0 end))%nat
         :: rest.
Proof.
  intros Hs. unfold slice0. rewrite Hs. eexists. split; reflexivity.
Qed.

Lemma select1_shape {A} (j : Z) (x : t A) (n c : nat) (rest : list nat) :
  shape x = n :: c :: rest ->
  0 <= j < Z.of_nat c ->
  exists y, select1 j x = Ok y /\ shape y = n :: rest.
Proof.
  intros Hs Hj. unfold select1. rewrite Hs.
  destruct (Z.ltb_spec j (- Z.of_nat c)); [ lia | ].
  destruct (Z.leb_spec (Z.of_nat c) j); [ lia | ].
  simpl. eexists. split; reflexivity.
Qed.

Lemma binop_shape {A B C} (f : A -> B -> C) (x : t A) (y : t B)
    (s : list nat) :
  broadcast_rev (rev (shape x)) (rev (shape y)) = Ok s ->
  exists z, binop f x y = Ok z /\ shape z = rev s.
Proof.
  intros Hb. unfold binop. rewrite Hb. simpl.
  eexists. split; reflexivity.
Qed.

Lemma binop_mismatch {A B C} (f : A -> B -> C) (x : t A) (y : t B)
    (e : error) :
  broadcast_rev (rev (shape x)) (rev (shape y)) = Err e ->
  binop f x y = Err e.
Proof. intros Hb. unfold binop. now rewrite Hb. Qed.

(** [torch.cat] of a non-empty vector and a matrix is refused. *)
Lemma cat_vector_matrix {A} (x y : t A) (n k c : nat) :
  shape x = [S n] -> shape y = [k; c] ->
  cat [x; y] = Err (CatRankMismatch 1 2).
Proof.
  intros Hx Hy. unfold cat. simpl.
  unfold legacy_empty. rewrite Hx, Hy. simpl.
  replace (negb match k with O | _ => false end) with true
    by now destruct k.
  simpl. unfold cat2. rewrite Hx, Hy. reflexivity.
Qed.

Lemma slice_bound_last (n : nat) : slice_bound (S n) (-1) = n.
Proof.
  unfold slice_bound, slice_stop.
  destruct (Z.ltb_spec (-1) 0); lia.
Qed.

(** Line 366 raises for every [rays] tensor: on an empty batch the sum
    cannot be broadcast, on every other batch [rays[-1:2]] keeps both
    dimensions and [torch.cat] is handed a vector and a matrix. *)
Lemma segments_fails (rays : list (Z * Z * Z)) :
  segments (of_rays rays) =
    Err match rays with
        | [] => BroadcastMismatch 0 3
        | _ :: _ => CatRankMismatch 1 2
        end.
Proof.
  destruct rays as [ | r rays]; [ reflexivity | ].
  set (x := of_rays (r :: rays)).
  assert (Hx : shape x = [S (length rays); 3%nat])
    by apply shape_of_rays.
  unfold segments.
  destruct (slice0_shape None None x _ _ Hx) as (a & -> & Ha).
  cbn [bind].
  destruct (select1_shape 1 a _ _ _ Ha ltac:(lia)) as (starts & -> & Hs).
  cbn [bind].
  destruct (slice0_shape (Some (-1)) None x _ _ Hx) as (b & -> & Hb).
  cbn [bind].
  destruct (select1_shape 1 b _ _ _ Hb ltac:(lia)) as (ls & -> & Hls).
  cbn [bind].
  destruct (slice0_shape (Some (-1)) (Some 2) x _ _ Hx) as (lr & -> & Hlr).
  cbn [bind].
  rewrite slice_bound_last in Hls, Hlr.
  replace (S (length rays) - length rays)%nat with 1%nat in Hls by lia.
  destruct (binop_shape int32_add ls lr
              [3%nat; (slice_bound (S (length rays)) 2
                       - length rays)%nat]) as (le & -> & Hle).
  { rewrite Hls, Hlr. reflexivity. }
  cbn [bind].
  replace (S (length rays) - 0)%nat with (S (length rays)) in Hs by lia.
  eapply cat_vector_matrix; [ exact Hs | exact Hle ].
Qed.

(** The backward pass returns no gradient, whatever it is given. *)
Lemma backward_never_returns (saved_rays : list (Z * Z * Z))
    (saved_ts dL_dxyzs dL_ddirs dL_ddeltas : buffer) :
  is_ok (backward saved_rays saved_ts dL_dxyzs dL_ddirs dL_ddeltas)
  = false.
Proof.
  unfold backward. rewrite segments_fails. reflexivity.
Qed.

(** Had line 366 produced its segments, line 371 would raise next: the
    saved [ts] is the [M, 1] tensor of the forward pass, and the pattern
    ["n -> n 1"] takes a vector. *)
Lemma rearrange_saved_ts_fails (saved_ts : buffer) :
  rearrange_n_to_n1 (of_buffer 1 saved_ts) = Err (EinopsRank 1 2).
Proof. reflexivity. Qed.

End MarchRaysTrainBackwardFacts.

(** C1, at a failing input.  One ray with the segment [(offset 0, count
    2)], two samples at [t = 1] and [t = 2], [d_position] rows [(1, 2, 3)]
    and [(4, 5, 6)], [d_direction] zero.  The design document asks for
    [d_origin = (5, 7, 9)] and [d_direction = (9, 12, 15)]; the code raises
    at line 366, where [rays[-1:2]] stands for [rays[-1:, 2]]. *)
Theorem march_rays_train_backward_raises :
  let rays := [(0, 0, 2)] in
  let ts := [[F32.of_Z 1]; [F32.of_Z 2]] in
  let d_position := [[F32.of_Z 1; F32.of_Z 2; F32.of_Z 3];
                     [F32.of_Z 4; F32.of_Z 5; F32.of_Z 6]] in
  let d_direction := [zero_row 3; zero_row 3] in
  let d_delta := [zero_row 2; zero_row 2] in
  MarchRaysTrainBackward.backward rays ts d_position d_direction d_delta
    = Err (CatRankMismatch 1 2)
  /\ MarchRaysTrainBackward.scatter_sum_spec rays ts d_position d_direction
     = ([[F32.of_Z 5; F32.of_Z 7; F32.of_Z 9]],
        [[F32.of_Z 9; F32.of_Z 12; F32.of_Z 15]]).
Proof. split; vm_compute; reflexivity. Qed.

(** ** The backward pass of the box intersection *)
Section NearFarFacts.
Import NearFar.

Lemma axis_mod3 (index : Z) : axis (index mod 3).
Proof.
  unfold axis. pose proof (Z.mod_pos_bound index 3 ltac:(lia)). lia.
Qed.

Lemma vget_vset (j k : Z) (a : f32) (v : vec3) :
  axis j -> axis k ->
  vget k (vset j a v) = if k =? j then a else vget k v.
Proof.
  destruct v as [[x y] z].
  intros [-> | [-> | ->]] [-> | [-> | ->]]; reflexivity.
Qed.

(** The indicator row of a hit index is 1 at column [index % 3] and 0
    elsewhere; the row of the sentinel is 0 everywhere. *)
Lemma get_indicator_spec (index j : Z) :
  axis j ->
  vget j (get_indicator index) =
    if (j =? index mod 3) && negb (index =? sentinel) then F32.one
    else F32.zero.
Proof.
  intros Hj. unfold get_indicator, sentinel.
  pose proof (axis_mod3 index) as Hm.
  destruct (index =? 255).
  - rewrite !vget_vset by assumption.
    destruct (j =? index mod 3); simpl; [ reflexivity | ].
    destruct Hj as [-> | [-> | ->]]; reflexivity.
  - rewrite vget_vset by assumption.
    destruct (j =? index mod 3); simpl; [ reflexivity | ].
    destruct Hj as [-> | [-> | ->]]; reflexivity.
Qed.

(** The two gradients of a ray, column by column. *)
Lemma backward_ray_origin (box : aabb) (r : ray) (j : Z) :
  axis j ->
  vget j (fst (backward_ray box r)) =
    F32.add
      (F32.mul (dL_dnear r)
         (F32.div (F32.mul (vget j (get_indicator (near_index r)))
                           F32.minus_one)
                  (vget j (rays_d r))))
      (F32.mul (dL_dfar r)
         (F32.div (F32.mul (vget j (get_indicator (far_index r)))
                           F32.minus_one)
                  (vget j (rays_d r)))).
Proof.
  intros Hj. unfold backward_ray. cbn [fst].
  destruct (get_indicator (near_index r)) as [[n0 n1] n2].
  destruct (get_indicator (far_index r)) as [[f0 f1] f2].
  destruct (rays_d r) as [[d0 d1] d2].
  destruct Hj as [-> | [-> | ->]]; reflexivity.
Qed.

Lemma backward_ray_direction (box : aabb) (r : ray) (j : Z) :
  axis j ->
  let d_sq := F32.mul (vget j (rays_d r)) (vget j (rays_d r)) in
  let term pl :=
    F32.sub (F32.div (vget j (rays_o r)) d_sq) (F32.div pl d_sq) in
  vget j (snd (backward_ray box r)) =
    F32.add
      (F32.mul (dL_dnear r)
         (F32.mul (vget j (get_indicator (near_index r)))
                  (term (plane box (near_index r mod 6)))))
      (F32.mul (dL_dfar r)
         (F32.mul (vget j (get_indicator (far_index r)))
                  (term (plane box (far_index r mod 6))))).
Proof.
  intros Hj. unfold backward_ray. cbn [snd].
  destruct (get_indicator (near_index r)) as [[n0 n1] n2].
  destruct (get_indicator (far_index r)) as [[f0 f1] f2].
  destruct (rays_d r) as [[d0 d1] d2].
  destruct (rays_o r) as [[o0 o1] o2].
  destruct Hj as [-> | [-> | ->]]; reflexivity.
Qed.

Lemma masked_origin_term (g d : f32) :
  F32.is_finite g = true -> nonzero d = true ->
  F32.is_zero
    (F32.mul g (F32.div (F32.mul F32.zero F32.minus_one) d)) = true.
Proof.
  destruct g, d; simpl; intros; try discriminate; reflexivity.
Qed.

Lemma masked_direction_term (g x : f32) :
  F32.is_finite g = true -> F32.is_finite x = true ->
  F32.is_zero (F32.mul g (F32.mul F32.zero x)) = true.
Proof.
  destruct g, x; simpl; intros; try discriminate; reflexivity.
Qed.

Lemma add_zero_zero (x y : f32) :
  F32.is_zero x = true -> F32.is_zero y = true ->
  F32.is_zero (F32.add x y) = true.
Proof.
  destruct x as [ [ | ] | | | ], y as [ [ | ] | | | ]; simpl; intros;
    try discriminate; reflexivity.
Qed.

(** The indicator is zero on a column that the index does not select. *)
Lemma get_indicator_unselected (index j : Z) :
  axis j -> index mod 3 <> j \/ index = sentinel ->
  vget j (get_indicator index) = F32.zero.
Proof.
  intros Hj Hsel. rewrite get_indicator_spec by exact Hj.
  destruct (Z.eqb_spec j (index mod 3)) as [E | E];
    [ | reflexivity ].
  destruct (Z.eqb_spec index sentinel) as [E' | E']; [ reflexivity | ].
  destruct Hsel; [ congruence | contradiction ].
Qed.

(** Where the mask works: on a column that neither index selects, with
    finite incoming gradients and a direction component that is not zero,
    the origin gradient is zero, and so is the direction gradient
    wherever the masked quotients are finite. *)
Lemma backward_ray_unselected_zero (box : aabb) (r : ray) (j : Z) :
  axis j ->
  near_index r mod 3 <> j \/ near_index r = sentinel ->
  far_index r mod 3 <> j \/ far_index r = sentinel ->
  F32.is_finite (dL_dnear r) = true -> F32.is_finite (dL_dfar r) = true ->
  nonzero (vget j (rays_d r)) = true ->
  F32.is_zero (vget j (fst (backward_ray box r))) = true
  /\ (let d_sq := F32.mul (vget j (rays_d r)) (vget j (rays_d r)) in
      let term pl :=
        F32.sub (F32.div (vget j (rays_o r)) d_sq) (F32.div pl d_sq) in
      F32.is_finite (term (plane box (near_index r mod 6))) = true ->
      F32.is_finite (term (plane box (far_index r mod 6))) = true ->
      F32.is_zero (vget j (snd (backward_ray box r))) = true).
Proof.
  intros Hj Hn Hf Hgn Hgf Hd. split.
  - rewrite backward_ray_origin by exact Hj.
    rewrite !get_indicator_unselected by assumption.
    apply add_zero_zero; now apply masked_origin_term.
  - intros d_sq term Htn Htf.
    rewrite backward_ray_direction by exact Hj.
    rewrite !get_indicator_unselected by assumption.
    apply add_zero_zero; now apply masked_direction_term.
Qed.

(** In particular a ray with the sentinel in both indices gets zero on
    every column where its direction is not zero. *)
Lemma backward_ray_miss_zero (box : aabb) (r : ray) (j : Z) :
  axis j ->
  near_index r = sentinel -> far_index r = sentinel ->
  F32.is_finite (dL_dnear r) = true -> F32.is_finite (dL_dfar r) = true ->
  nonzero (vget j (rays_d r)) = true ->
  F32.is_zero (vget j (fst (backward_ray box r))) = true
  /\ (let d_sq := F32.mul (vget j (rays_d r)) (vget j (rays_d r)) in
      let term pl :=
        F32.sub (F32.div (vget j (rays_o r)) d_sq) (F32.div pl d_sq) in
      F32.is_finite (term (plane box (sentinel mod 6))) = true ->
      F32.is_zero (vget j (snd (backward_ray box r))) = true).
Proof.
  intros Hj Hn Hf Hgn Hgf Hd.
  destruct (backward_ray_unselected_zero box r j Hj) as [Ho Hdir];
    auto.
  split; [ exact Ho | ].
  intros d_sq term Ht. apply Hdir; rewrite ?Hn, ?Hf; exact Ht.
Qed.

(** On the axis of a hit index the origin coefficient is [-1 / d]. *)
Lemma selected_axis_origin_coefficient (index : Z) (d : f32) :
  index <> sentinel ->
  F32.div (F32.mul (vget (index mod 3) (get_indicator index))
                   F32.minus_one) d
  = F32.div F32.minus_one d.
Proof.
  intros Hi. rewrite get_indicator_spec by apply axis_mod3.
  rewrite Z.eqb_refl.
  destruct (Z.eqb_spec index sentinel); [ contradiction | reflexivity ].
Qed.

End NearFarFacts.

(** C2, at a failing input.  Two rays along [(1, 0, 0)] against the box
    [[-1, 1]³]: the first hits ([near_index = 0], [far_index = 3],
    incoming gradients 1 and 0), the second misses (both indices 255,
    incoming gradients 1 and 1).  The design document asks for zero on
    the y and z columns of the first ray and for zero on every column of
    the second; the code returns NaN on the y and z columns of both rays
    and both gradients, because the mask is a factor and the masked
    quotient divides by the zero components of the direction. *)
Theorem near_far_backward_nan_on_zero_direction :
  NearFar.backward Fixtures.unit_box [Fixtures.hit_ray; Fixtures.missed_ray]
  = ([(F32.minus_one, S754_nan, S754_nan);
      (S754_zero true, S754_nan, S754_nan)],
     [(F32.minus_one, S754_nan, S754_nan);
      (S754_zero false, S754_nan, S754_nan)]).
Proof. vm_compute. reflexivity. Qed.

(** With no zero component in the direction the same hit gives
    [-1 / d_x = -1/2] and [(o_x - xmin) / d_x² = -1/4] on the x column
    and zeros on the others. *)
Example near_far_backward_slanted :
  NearFar.backward Fixtures.unit_box [Fixtures.slanted_ray]
  = ([(F32.div F32.minus_one (F32.of_Z 2), S754_zero true, S754_zero true)],
     [(F32.div F32.minus_one (F32.of_Z 4), S754_zero false,
       S754_zero false)]).
Proof. vm_compute. reflexivity. Qed.

(** ** The backward pass of the training compositor *)

(** C3.  Whatever the kernel computes, two runs of the backward pass on
    the same saved tensors and the same gradients on [weights_sum] and
    [image] return the same [(grad_sigmas, grad_rgbs)], whichever
    gradients on [depth] they are given: [grad_depth] is not handed to the
    kernel. *)
Theorem composite_rays_train_backward_ignores_grad_depth
    (kernel : CompositeRaysTrain.kernel) (ctx : CompositeRaysTrain.saved)
    (grad_weights_sum : list f32) (grad_image : buffer)
    (grad_depth grad_depth' : list f32) :
  CompositeRaysTrain.backward kernel ctx grad_weights_sum grad_depth
                              grad_image
  = CompositeRaysTrain.backward kernel ctx grad_weights_sum grad_depth'
                                grad_image.
Proof. reflexivity. Qed.

(** Neither is the saved [depth]. *)
Lemma composite_rays_train_backward_ignores_saved_depth
    (kernel : CompositeRaysTrain.kernel) (ctx : CompositeRaysTrain.saved)
    (depth' : list f32) (grad_weights_sum grad_depth : list f32)
    (grad_image : buffer) :
  let ctx' :=
    {| CompositeRaysTrain.sigmas := CompositeRaysTrain.sigmas ctx;
       CompositeRaysTrain.rgbs := CompositeRaysTrain.rgbs ctx;
       CompositeRaysTrain.deltas := CompositeRaysTrain.deltas ctx;
       CompositeRaysTrain.rays := CompositeRaysTrain.rays ctx;
       CompositeRaysTrain.weights_sum := CompositeRaysTrain.weights_sum ctx;
       CompositeRaysTrain.depth := depth';
       CompositeRaysTrain.image := CompositeRaysTrain.image ctx;
       CompositeRaysTrain.dim_M := CompositeRaysTrain.dim_M ctx;
       CompositeRaysTrain.dim_N := CompositeRaysTrain.dim_N ctx |} in
  CompositeRaysTrain.backward kernel ctx' grad_weights_sum grad_depth
                              grad_image
  = CompositeRaysTrain.backward kernel ctx grad_weights_sum grad_depth
                                grad_image.
Proof. reflexivity. Qed.

(** ** Morton codes *)
Section MortonFacts.
Import Morton.

Local Abbreviation pow2 k := (2 ^ Z.of_nat k).
Local Abbreviation pow8 k := (8 ^ Z.of_nat k).

Lemma pow2_S (k : nat) : pow2 (S k) = 2 * pow2 k.
Proof. rewrite Nat2Z.inj_succ, Z.pow_succ_r by lia. reflexivity. Qed.

Lemma pow8_S (k : nat) : pow8 (S k) = 8 * pow8 k.
Proof. rewrite Nat2Z.inj_succ, Z.pow_succ_r by lia. reflexivity. Qed.

Lemma pow8_pow2 (k : nat) : pow8 k = pow2 k ^ 3.
Proof.
  change 8 with (2 ^ 3). rewrite <- !Z.pow_mul_r by lia.
  f_equal. lia.
Qed.

Lemma pow8_pos (k : nat) : 0 < pow8 k.
Proof. apply Z.pow_pos_nonneg; lia. Qed.

Lemma interleave3_range (n : nat) (x y z : Z) :
  0 <= interleave3 n x y z < pow8 n.
Proof.
  revert x y z. induction n as [ | n IH]; intros x y z.
  - simpl. lia.
  - rewrite pow8_S. cbn [interleave3].
    specialize (IH (x / 2) (y / 2) (z / 2)).
    pose proof (Z.mod_pos_bound x 2 ltac:(lia)).
    pose proof (Z.mod_pos_bound y 2 ltac:(lia)).
    pose proof (Z.mod_pos_bound z 2 ltac:(lia)).
    lia.
Qed.

Lemma interleave3_zero (n : nat) : interleave3 n 0 0 0 = 0.
Proof.
  induction n as [ | n IH]; [ reflexivity | ].
  cbn [interleave3]. change (0 / 2) with 0. rewrite IH. reflexivity.
Qed.

Lemma deinterleave3_zero (n : nat) : deinterleave3 n 0 = (0, 0, 0).
Proof.
  induction n as [ | n IH]; [ reflexivity | ].
  cbn [deinterleave3]. change (0 / 8) with 0. rewrite IH. reflexivity.
Qed.

Lemma half_range (k : nat) (x : Z) :
  0 <= x < pow2 (S k) -> 0 <= x / 2 < pow2 k.
Proof.
  rewrite pow2_S. intros Hx.
  pose proof (Z.div_mod x 2 ltac:(lia)).
  pose proof (Z.mod_pos_bound x 2 ltac:(lia)). lia.
Qed.

(** Bits beyond the width of the coordinates add nothing. *)
Lemma interleave3_extra (k j : nat) (x y z : Z) :
  0 <= x < pow2 k -> 0 <= y < pow2 k -> 0 <= z < pow2 k ->
  interleave3 (k + j) x y z = interleave3 k x y z.
Proof.
  revert x y z. induction k as [ | k IH]; intros x y z Hx Hy Hz.
  - simpl in Hx, Hy, Hz.
    assert (x = 0) as -> by lia. assert (y = 0) as -> by lia.
    assert (z = 0) as -> by lia. apply interleave3_zero.
  - cbn [Nat.add interleave3].
    rewrite IH by now apply half_range. reflexivity.
Qed.

Lemma deinterleave3_extra (k j : nat) (m : Z) :
  0 <= m < pow8 k ->
  deinterleave3 (k + j) m = deinterleave3 k m.
Proof.
  revert m. induction k as [ | k IH]; intros m Hm.
  - simpl in Hm. assert (m = 0) as -> by lia. apply deinterleave3_zero.
  - cbn [Nat.add deinterleave3]. rewrite IH; [ reflexivity | ].
    rewrite pow8_S in Hm.
    pose proof (Z.div_mod m 8 ltac:(lia)).
    pose proof (Z.mod_pos_bound m 8 ltac:(lia)). lia.
Qed.

(** The three low bits of a code and the rest. *)
Lemma split_code (a b c r : Z) :
  0 <= a < 2 -> 0 <= b < 2 -> 0 <= c < 2 ->
  let m := a + 2 * b + 4 * c + 8 * r in
  m mod 2 = a /\ (m / 2) mod 2 = b /\ (m / 4) mod 2 = c /\ m / 8 = r.
Proof.
  intros Ha Hb Hc m. subst m.
  assert (E2 : (a + 2 * b + 4 * c + 8 * r) / 2 = b + 2 * c + 4 * r).
  { symmetry. apply (Z.div_unique _ 2 _ a); lia. }
  assert (E4 : (a + 2 * b + 4 * c + 8 * r) / 4 = c + 2 * r).
  { symmetry. apply (Z.div_unique _ 4 _ (a + 2 * b)); lia. }
  assert (E8 : (a + 2 * b + 4 * c + 8 * r) / 8 = r).
  { symmetry. apply (Z.div_unique _ 8 _ (a + 2 * b + 4 * c)); lia. }
  rewrite E2, E4, E8. repeat split.
  - symmetry. apply (Z.mod_unique _ 2 (b + 2 * c + 4 * r)); lia.
  - symmetry. apply (Z.mod_unique _ 2 (c + 2 * r)); lia.
  - symmetry. apply (Z.mod_unique _ 2 r); lia.
Qed.

Lemma deinterleave3_interleave3 (k : nat) (x y z : Z) :
  0 <= x < pow2 k -> 0 <= y < pow2 k -> 0 <= z < pow2 k ->
  deinterleave3 k (interleave3 k x y z) = (x, y, z).
Proof.
  revert x y z. induction k as [ | k IH]; intros x y z Hx Hy Hz.
  - simpl in *. repeat f_equal; lia.
  - cbn [interleave3 deinterleave3].
    pose proof (Z.mod_pos_bound x 2 ltac:(lia)) as Bx.
    pose proof (Z.mod_pos_bound y 2 ltac:(lia)) as By.
    pose proof (Z.mod_pos_bound z 2 ltac:(lia)) as Bz.
    destruct (split_code (x mod 2) (y mod 2) (z mod 2)
                (interleave3 k (x / 2) (y / 2) (z / 2)) Bx By Bz)
      as (-> & -> & -> & ->).
    rewrite IH by now apply half_range.
    pose proof (Z.div_mod x 2 ltac:(lia)).
    pose proof (Z.div_mod y 2 ltac:(lia)).
    pose proof (Z.div_mod z 2 ltac:(lia)).
    repeat f_equal; lia.
Qed.

Lemma interleave3_deinterleave3 (k : nat) (m : Z) :
  0 <= m < pow8 k ->
  let '(x, y, z) := deinterleave3 k m in
  interleave3 k x y z = m
  /\ 0 <= x < pow2 k /\ 0 <= y < pow2 k /\ 0 <= z < pow2 k.
Proof.
  revert m. induction k as [ | k IH]; intros m Hm.
  - simpl in *. lia.
  - cbn [deinterleave3].
    assert (Hm8 : 0 <= m / 8 < pow8 k).
    { rewrite pow8_S in Hm.
      pose proof (Z.div_mod m 8 ltac:(lia)).
      pose proof (Z.mod_pos_bound m 8 ltac:(lia)). lia. }
    specialize (IH (m / 8) Hm8).
    destruct (deinterleave3 k (m / 8)) as [[x y] z].
    destruct IH as (IH & Hx & Hy & Hz).
    pose proof (Z.mod_pos_bound m 2 ltac:(lia)) as Ba.
    pose proof (Z.mod_pos_bound (m / 2) 2 ltac:(lia)) as Bb.
    pose proof (Z.mod_pos_bound (m / 4) 2 ltac:(lia)) as Bc.
    rewrite !pow2_S. cbn [interleave3].
    replace ((m mod 2 + 2 * x) mod 2) with (m mod 2)
      by (apply (Z.mod_unique _ 2 x); lia).
    replace (((m / 2) mod 2 + 2 * y) mod 2) with ((m / 2) mod 2)
      by (apply (Z.mod_unique _ 2 y); lia).
    replace (((m / 4) mod 2 + 2 * z) mod 2) with ((m / 4) mod 2)
      by (apply (Z.mod_unique _ 2 z); lia).
    replace ((m mod 2 + 2 * x) / 2) with x
      by (apply (Z.div_unique _ 2 _ (m mod 2)); lia).
    replace (((m / 2) mod 2 + 2 * y) / 2) with y
      by (apply (Z.div_unique _ 2 _ ((m / 2) mod 2)); lia).
    replace (((m / 4) mod 2 + 2 * z) / 2) with z
      by (apply (Z.div_unique _ 2 _ ((m / 4) mod 2)); lia).
    rewrite IH.
    split; [ | lia ].
    pose proof (Z.div_mod m 2 ltac:(lia)).
    pose proof (Z.div_mod (m / 2) 2 ltac:(lia)).
    pose proof (Z.div_mod (m / 4) 2 ltac:(lia)).
    assert (m / 4 = m / 2 / 2) by (rewrite Z.div_div by lia; reflexivity).
    assert (m / 8 = m / 4 / 2) by (rewrite Z.div_div by lia; reflexivity).
    lia.
Qed.

End MortonFacts.

Section MortonRoundTrip.
Import Morton.

(** On coordinates of at most [k <= 10] bits the 32-bit code is the
    interleaving of [k] bits, and decode reads it back. *)
Lemma encode_small (k : nat) (x y z : Z) :
  (k <= 10)%nat ->
  0 <= x < 2 ^ Z.of_nat k -> 0 <= y < 2 ^ Z.of_nat k ->
  0 <= z < 2 ^ Z.of_nat k ->
  encode x y z = interleave3 k x y z.
Proof.
  intros Hk Hx Hy Hz. unfold encode.
  replace 32%nat with (k + (32 - k))%nat by lia.
  rewrite interleave3_extra by assumption.
  apply Z.mod_small.
  pose proof (interleave3_range k x y z) as Hr.
  assert (8 ^ Z.of_nat k <= 8 ^ 10)
    by (apply Z.pow_le_mono_r; lia).
  assert (8 ^ 10 < 2 ^ 32) by reflexivity.
  lia.
Qed.

Lemma decode_small (k : nat) (m : Z) :
  (k <= 10)%nat -> 0 <= m < 8 ^ Z.of_nat k ->
  decode m = deinterleave3 k m.
Proof.
  intros Hk Hm. unfold decode.
  replace 11%nat with (k + (11 - k))%nat by lia.
  now apply deinterleave3_extra.
Qed.

Lemma decode_encode (x y z : Z) :
  0 <= x < 1024 -> 0 <= y < 1024 -> 0 <= z < 1024 ->
  decode (encode x y z) = (x, y, z).
Proof.
  intros Hx Hy Hz.
  rewrite (encode_small 10) by (lia || assumption).
  rewrite (decode_small 10) by (lia || apply interleave3_range).
  now apply deinterleave3_interleave3.
Qed.

(** C6 (as amended).  Decode undoes encode on every triple of
    coordinates below 1024, whatever the resolution; and when the
    resolution is a power of two, [H = 2^k] with [k <= 10] (the 128 of the
    code is [2^7]), encode is one-to-one from [[0,H)³] onto [[0,H³)]. *)
Theorem morton_round_trip_power_of_two :
  (forall H c, 0 < H <= 1024 -> valid H c ->
     morton3D_invert (morton3D [c]) = [c])
  /\ (forall k : nat, (k <= 10)%nat ->
        round_trip_and_bijection (2 ^ Z.of_nat k)).
Proof.
  split.
  - intros H [[x y] z] HH (Hx & Hy & Hz).
    unfold morton3D_invert, morton3D. cbn [map fst snd].
    rewrite decode_encode by lia. reflexivity.
  - intros k Hk.
    assert (H1024 : 2 ^ Z.of_nat k <= 1024).
    { change 1024 with (2 ^ 10). apply Z.pow_le_mono_r; lia. }
    split.
    + intros [[x y] z] (Hx & Hy & Hz).
      unfold morton3D_invert, morton3D. cbn [map fst snd]. split.
      * rewrite decode_encode by lia. reflexivity.
      * rewrite (encode_small k) by assumption.
        rewrite <- pow8_pow2. apply interleave3_range.
    + intros m Hm. rewrite <- pow8_pow2 in Hm.
      pose proof (interleave3_deinterleave3 k m Hm) as Hinv.
      destruct (deinterleave3 k m) as [[x y] z].
      destruct Hinv as (Hinv & Hx & Hy & Hz).
      exists (x, y, z). split; [ repeat split; lia | ].
      unfold morton3D. cbn [map fst snd].
      rewrite (encode_small k) by assumption.
      now rewrite Hinv.
Qed.

(** C6 counterexample: [H = 6].  The cell [(5, 5, 5)] is valid and its
    code is 455, which is not below [6³ = 216]. *)
Lemma morton_round_trip_counterexample :
  valid 6 (5, 5, 5)
  /\ morton3D [(5, 5, 5)] = [455]
  /\ ~ round_trip_and_bijection 6.
Proof.
  split; [ cbn; lia | ]. split; [ reflexivity | ].
  intros [Hrt _].
  destruct (Hrt (5, 5, 5)) as (_ & Hr); [ cbn; lia | ].
  vm_compute in Hr. destruct Hr as (_ & Hr). discriminate Hr.
Qed.

End MortonRoundTrip.

(** C6 witness: [H = 128], the resolution the code is written for. *)
Lemma morton_round_trip_power_of_two_witness :
  Morton.round_trip_and_bijection 128
  /\ Morton.morton3D_invert (Morton.morton3D [(5, 5, 5)]) = [(5, 5, 5)].
Proof.
  destruct morton_round_trip_power_of_two as (Hrt & Hbij).
  split.
  - exact (Hbij 7%nat ltac:(lia)).
  - apply (Hrt 6); [ lia | cbn; lia ].
Defined.

(** ** The occupancy bit field *)
Section PackbitsFacts.
Import Packbits.

Variables (grid : list f32) (thresh : f32).

Lemma set_bits_testbit (n s len b : nat) :
  Z.testbit (fold_right (set_bit grid thresh n) 0 (seq s len)) (Z.of_nat b)
  = (s <=? b)%nat && (b <? s + len)%nat && occupied grid thresh (8 * n + b).
Proof.
  revert s. induction len as [ | len IH]; intros s.
  - simpl. rewrite Z.testbit_0_l.
    destruct (Nat.leb_spec s b), (Nat.ltb_spec b (s + 0)); simpl;
      reflexivity || lia.
  - cbn [seq fold_right].
    assert (Hbit : Z.testbit (2 ^ Z.of_nat s) (Z.of_nat b) = (s =? b)%nat).
    { rewrite Z.pow2_bits_eqb by lia.
      destruct (Z.eqb_spec (Z.of_nat s) (Z.of_nat b)),
               (Nat.eqb_spec s b); reflexivity || lia. }
    assert (Hrest :
              Z.testbit (fold_right (set_bit grid thresh n) 0
                                    (seq (S s) len)) (Z.of_nat b)
              = negb (s =? b)%nat
                && ((s <=? b)%nat && (b <? s + S len)%nat
                    && occupied grid thresh (8 * n + b))).
    { rewrite IH.
      destruct (Nat.eqb_spec s b), (Nat.leb_spec (S s) b),
               (Nat.leb_spec s b), (Nat.ltb_spec b (S s + len)),
               (Nat.ltb_spec b (s + S len));
        cbn [negb andb]; reflexivity || lia. }
    destruct (Nat.eq_dec s b) as [E | Hne].
    + subst s. rewrite Nat.eqb_refl in Hbit, Hrest.
      assert ((b <=? b)%nat = true) as -> by (apply Nat.leb_le; lia).
      assert ((b <? b + S len)%nat = true) as -> by (apply Nat.ltb_lt; lia).
      cbn [negb andb] in Hrest. cbn [andb].
      unfold set_bit at 1.
      destruct (occupied grid thresh (8 * n + b)); [ | exact Hrest ].
      rewrite Z.lor_spec, Hbit. reflexivity.
    + apply Nat.eqb_neq in Hne. rewrite Hne in Hbit, Hrest.
      cbn [negb andb] in Hrest.
      unfold set_bit at 1.
      destruct (occupied grid thresh (8 * n + s)); [ | exact Hrest ].
      rewrite Z.lor_spec, Hbit, Hrest. reflexivity.
Qed.

(** Bit [b] of byte [n] says whether cell [8n + b] is above the
    threshold. *)
Lemma pack_byte_testbit (n b : nat) :
  (b < 8)%nat ->
  Z.testbit (pack_byte grid thresh n) (Z.of_nat b)
  = occupied grid thresh (8 * n + b).
Proof.
  intros Hb. unfold pack_byte. rewrite set_bits_testbit.
  replace (0 <=? b)%nat with true by reflexivity.
  replace (b <? 0 + 8)%nat with true
    by (symmetry; apply Nat.ltb_lt; lia).
  reflexivity.
Qed.

Lemma lor_below_pow2 (a b k : Z) :
  0 <= k -> 0 <= a < 2 ^ k -> 0 <= b < 2 ^ k -> 0 <= Z.lor a b < 2 ^ k.
Proof.
  intros Hk Ha Hb.
  assert (H0 : 0 <= Z.lor a b) by (apply Z.lor_nonneg; lia).
  split; [ exact H0 | ].
  destruct (Z.eq_dec (Z.lor a b) 0) as [-> | Hnz]; [ lia | ].
  assert (Hkpos : 0 < k).
  { destruct (Z.eq_dec k 0) as [-> | ]; [ exfalso | lia ].
    change (2 ^ 0) with 1 in Ha, Hb.
    assert (a = 0) as -> by lia. assert (b = 0) as -> by lia.
    now apply Hnz. }
  apply Z.log2_lt_pow2; [ lia | ].
  rewrite Z.log2_lor by lia.
  apply Z.max_lub_lt.
  - destruct (Z.eq_dec a 0) as [-> | ]; [ simpl; lia | ].
    apply Z.log2_lt_pow2; lia.
  - destruct (Z.eq_dec b 0) as [-> | ]; [ simpl; lia | ].
    apply Z.log2_lt_pow2; lia.
Qed.

Lemma set_bits_range (n s len : nat) :
  0 <= fold_right (set_bit grid thresh n) 0 (seq s len)
    < 2 ^ Z.of_nat (s + len).
Proof.
  revert s. induction len as [ | len IH]; intros s.
  - simpl. split; [ lia | apply Z.pow_pos_nonneg; lia ].
  - cbn [seq fold_right]. specialize (IH (S s)).
    replace (s + S len)%nat with (S s + len)%nat by lia.
    set (rest := fold_right (set_bit grid thresh n) 0 (seq (S s) len))
      in *.
    unfold set_bit.
    destruct (occupied grid thresh (8 * n + s)); [ | exact IH ].
    apply lor_below_pow2; [ lia | | exact IH ].
    split; [ apply Z.pow_nonneg; lia | ].
    apply Z.pow_lt_mono_r; lia.
Qed.

(** A packed byte is a uint8. *)
Lemma pack_byte_range (n : nat) : 0 <= pack_byte grid thresh n < 256.
Proof. exact (set_bits_range n 0 8). Qed.

Lemma store_bytes_length (k : nat) (bitfield : list Z) :
  length (fold_left (store_byte grid thresh) (seq 0 k) bitfield)
  = length bitfield.
Proof.
  induction k as [ | k IH]; [ reflexivity | ].
  rewrite seq_S, fold_left_app. simpl. unfold store_byte at 1.
  now rewrite length_insert.
Qed.

Lemma store_bytes_lookup (k : nat) (bitfield : list Z) (n : nat) :
  (n < k)%nat -> (n < length bitfield)%nat ->
  fold_left (store_byte grid thresh) (seq 0 k) bitfield !! n
  = Some (pack_byte grid thresh n).
Proof.
  induction k as [ | k IH]; intros Hn Hl; [ lia | ].
  rewrite seq_S, fold_left_app. simpl. unfold store_byte at 1.
  destruct (Nat.eq_dec n k) as [-> | Hne].
  - apply list_lookup_insert_eq. now rewrite store_bytes_length.
  - rewrite list_lookup_insert_ne by congruence. apply IH; lia.
Qed.

(** The kernel stores the packed byte into each of the first [N] slots
    and keeps the length of the bit field. *)
Lemma packbits_kernel_length (N : Z) (bitfield : list Z) :
  length (packbits_kernel grid N thresh bitfield) = length bitfield.
Proof. apply store_bytes_length. Qed.

Lemma packbits_kernel_lookup (N : Z) (bitfield : list Z) (n : nat) :
  (n < Z.to_nat N)%nat -> (n < length bitfield)%nat ->
  packbits_kernel grid N thresh bitfield !! n
  = Some (pack_byte grid thresh n).
Proof. apply store_bytes_lookup. Qed.

End PackbitsFacts.

(** Cell [i] of row [c] of a grid with rows of length [w] is cell
    [c * w + i] of the contiguous grid. *)
Lemma concat_lookup_uniform {A} (rows : list (list A)) (w c i : nat)
    (r : list A) (a : A) :
  Forall (fun r => length r = w) rows ->
  rows !! c = Some r -> r !! i = Some a ->
  concat rows !! (c * w + i)%nat = Some a.
Proof.
  intros Hw. revert c. induction Hw as [ | r0 rows Hr0 Hw IH]; intros c Hc Hi.
  - discriminate.
  - destruct c as [ | c]; simpl in *.
    + injection Hc as ->. apply lookup_app_l_Some. exact Hi.
    + rewrite lookup_app_r by lia.
      replace (w + c * w + i - length r0)%nat with (c * w + i)%nat by lia.
      now apply IH.
Qed.

(** An even resolution has a cube divisible by 8. *)
Lemma even_cube (H : nat) :
  Nat.Even H -> (H ^ 3 = 8 * (H ^ 3 / 8))%nat.
Proof.
  intros [h ->].
  replace ((2 * h) ^ 3)%nat with (h ^ 3 * 8)%nat by (simpl; nia).
  rewrite Nat.div_mul by lia. lia.
Qed.

(** C7.  For a grid of [C] rows of [H³] cells with [H] even, [packbits]
    returns [C * H³ / 8] bytes, each a uint8, and for every cascade [c]
    and cell [i] the bit [i mod 8] of byte [i / 8] of the block of cascade
    [c] (byte [c * H³/8 + i/8] of the whole field) is 1 iff
    [grid[c, i] > thresh].  The bit field handed in, if any, has the
    length the docstring gives it. *)
Theorem packbits_layout (grid : buffer) (thresh : f32)
    (bitfield : option (list Z)) (H : nat) :
  Nat.Even H ->
  Forall (fun r => length r = (H ^ 3)%nat) grid ->
  (forall b, bitfield = Some b ->
             length b = (length grid * H ^ 3 / 8)%nat) ->
  exists out,
    Packbits.forward grid thresh bitfield = Ok out
    /\ length out = (length grid * H ^ 3 / 8)%nat
    /\ (forall n byte, out !! n = Some byte -> 0 <= byte < 256)
    /\ (forall (c i : nat) (r : row) (g : f32),
          grid !! c = Some r -> r !! i = Some g ->
          exists byte,
            out !! (c * (H ^ 3 / 8) + i / 8)%nat = Some byte
            /\ Z.testbit byte (Z.of_nat (i mod 8)) = F32.gtb g thresh).
Proof.
  intros HH Hrows Hbf.
  pose proof (even_cube H HH) as Hcube.
  set (q := (H ^ 3 / 8)%nat) in *. clearbody q.
  set (N := Z.of_nat (length grid) * Z.of_nat (length (hd [] grid)) / 8).
  assert (HN : Z.to_nat N = (length grid * q)%nat).
  { subst N. destruct Hrows as [ | r0 rows Hr0 _]; [ reflexivity | ].
    cbn [hd]. rewrite Hr0, Hcube.
    rewrite <- Nat2Z.inj_mul.
    change 8 with (Z.of_nat 8). rewrite <- Nat2Z.inj_div, Nat2Z.id.
    generalize (length (r0 :: rows)). intros a.
    rewrite (Nat.mul_comm 8 q), Nat.mul_assoc.
    apply Nat.div_mul. lia. }
  assert (HNq : (length grid * H ^ 3 / 8 = length grid * q)%nat).
  { rewrite Hcube, (Nat.mul_comm 8 q), Nat.mul_assoc.
    apply Nat.div_mul. lia. }
  assert (HN0 : 0 <= N).
  { subst N. apply Z.div_pos; lia. }
  assert (Hin : exists b0,
            match bitfield with
            | None => Packbits.torch_empty N
            | Some b => Ok b
            end = Ok b0 /\ length b0 = (length grid * q)%nat).
  { destruct bitfield as [b | ].
    - exists b. split; [ reflexivity | ]. rewrite <- HNq. now apply Hbf.
    - unfold Packbits.torch_empty.
      destruct (Z.ltb_spec N 0); [ lia | ].
      eexists. split; [ reflexivity | ].
      now rewrite length_replicate. }
  destruct Hin as (b0 & Hb0 & Lb0).
  exists (Packbits.packbits_kernel (concat grid) N thresh b0).
  split.
  { unfold Packbits.forward. fold N. rewrite Hb0. reflexivity. }
  split.
  { rewrite packbits_kernel_length, HNq. exact Lb0. }
  split.
  - intros n byte Hn.
    assert (Hlt : (n < length grid * q)%nat).
    { apply lookup_lt_Some in Hn.
      rewrite packbits_kernel_length in Hn. lia. }
    rewrite packbits_kernel_lookup in Hn by lia.
    injection Hn as <-. apply pack_byte_range.
  - intros c i r g Hc Hi.
    assert (Hclt : (c < length grid)%nat) by (eapply lookup_lt_Some; eauto).
    assert (Hr : length r = (H ^ 3)%nat).
    { rewrite Forall_forall in Hrows. apply Hrows.
      eapply list_elem_of_lookup_2; eauto. }
    assert (Hilt : (i < 8 * q)%nat).
    { apply lookup_lt_Some in Hi. lia. }
    pose proof (Nat.div_mod_eq i 8) as Hdm.
    pose proof (Nat.mod_upper_bound i 8 ltac:(lia)) as Hmod.
    assert (Hdiv : (i / 8 < q)%nat) by (apply Nat.Div0.div_lt_upper_bound; lia).
    exists (Packbits.pack_byte (concat grid) thresh (c * q + i / 8)).
    split.
    + apply packbits_kernel_lookup; [ | rewrite Lb0 ]; nia.
    + rewrite pack_byte_testbit by exact Hmod.
      unfold Packbits.occupied.
      replace (8 * (c * q + i / 8) + i mod 8)%nat
        with (c * H ^ 3 + i)%nat by lia.
      now rewrite (concat_lookup_uniform grid (H ^ 3) c i r g).
Qed.

(** C7 witness: one cascade of resolution 2, the cells 0, 3 and 6 above
    the threshold: one byte, [0b01001001 = 73]. *)
Lemma packbits_layout_witness :
  let above := F32.of_Z 2 in
  let below := F32.zero in
  let grid := [[above; below; below; above; below; below; above; below]] in
  Nat.Even 2
  /\ Packbits.forward grid F32.one None = Ok [73]
  /\ exists byte,
       [73] !! 0%nat = Some byte /\ Z.testbit byte 3 = true.
Proof.
  intros above below grid.
  split; [ exists 1%nat; reflexivity | ].
  destruct (packbits_layout grid F32.one None 2) as (out & Hout & _ & _ & Hb).
  - exists 1%nat. reflexivity.
  - repeat constructor.
  - discriminate.
  - vm_compute in Hout. injection Hout as <-.
    split; [ reflexivity | ].
    exact (Hb 0%nat 3%nat _ above eq_refl eq_refl).
Defined.

(** ** Compaction of the alive rays *)
Section CompactRaysFacts.
Import CompactRays.

Variables (rays_alive_old : list Z) (rays_t_old : list f32).

Let step := compact_step rays_alive_old rays_t_old.

Lemma take_zip_S (k : nat) (id : Z) (t : f32) :
  rays_alive_old !! k = Some id -> rays_t_old !! k = Some t ->
  take (S k) (zip rays_alive_old rays_t_old)
  = take k (zip rays_alive_old rays_t_old) ++ [(id, t)].
Proof.
  intros Hid Ht. apply take_S_r. apply lookup_zip_Some. now split.
Qed.

Lemma survivors_S (k : nat) (id : Z) (t : f32) :
  rays_alive_old !! k = Some id -> rays_t_old !! k = Some t ->
  survivors (S k) rays_alive_old rays_t_old
  = survivors k rays_alive_old rays_t_old
    ++ (if dead t then [] else [(id, t)]).
Proof.
  intros Hid Ht. unfold survivors.
  rewrite (take_zip_S k id t Hid Ht), List.filter_app. simpl.
  destruct (dead t); reflexivity.
Qed.

Lemma survivors_length (k : nat) :
  (length (survivors k rays_alive_old rays_t_old) <= k)%nat.
Proof.
  unfold survivors.
  etransitivity; [ apply List.filter_length_le | ].
  rewrite length_take. lia.
Qed.

(** After the first [k] entries have been visited, starting from a
    counter of zero, the counter is the number of survivors among them and
    the survivors stand at the front of the output arrays, in their
    order. *)
Lemma compact_prefix (k : nat) (rays_alive : list Z) (rays_t : list f32) :
  (k <= length rays_alive_old)%nat -> (k <= length rays_t_old)%nat ->
  (k <= length rays_alive)%nat -> (k <= length rays_t)%nat ->
  let s := fold_left step (seq 0 k)
             {| CompactRays.rays_alive := rays_alive;
                CompactRays.rays_t := rays_t;
                alive_counter := 0 |} in
  let sv := survivors k rays_alive_old rays_t_old in
  alive_counter s = Z.of_nat (length sv)
  /\ take (length sv) (CompactRays.rays_alive s) = map fst sv
  /\ take (length sv) (CompactRays.rays_t s) = map snd sv
  /\ length (CompactRays.rays_alive s) = length rays_alive
  /\ length (CompactRays.rays_t s) = length rays_t.
Proof.
  induction k as [ | k IH]; intros Ha Ht Hra Hrt.
  - cbn. repeat split; reflexivity.
  - specialize (IH ltac:(lia) ltac:(lia) ltac:(lia) ltac:(lia)).
    cbv zeta in IH |- *.
    rewrite seq_S, fold_left_app. cbn [fold_left Nat.add].
    set (s := fold_left step (seq 0 k) _) in *.
    destruct IH as (Hc & Hta & Htt & Hla & Hlt).
    destruct (lookup_lt_is_Some_2 rays_alive_old k ltac:(lia)) as [id Hid].
    destruct (lookup_lt_is_Some_2 rays_t_old k ltac:(lia)) as [t Htk].
    rewrite (survivors_S k id t Hid Htk).
    pose proof (survivors_length k) as Hsv.
    set (sv := survivors k rays_alive_old rays_t_old) in *.
    assert (Hstep :
              step s k =
                if dead t then s
                else {| CompactRays.rays_alive :=
                          <[Z.to_nat (alive_counter s) := id]>
                            (CompactRays.rays_alive s);
                        CompactRays.rays_t :=
                          <[Z.to_nat (alive_counter s) := t]>
                            (CompactRays.rays_t s);
                        alive_counter := alive_counter s + 1 |}).
    { unfold step, compact_step. now rewrite Hid, Htk. }
    rewrite Hstep. clear Hstep.
    destruct (dead t).
    + rewrite app_nil_r. repeat split; assumption.
    + rewrite length_app, map_app, map_app. cbn [length map fst snd].
      cbn [CompactRays.rays_alive CompactRays.rays_t alive_counter].
      rewrite Hc, Nat2Z.id.
      replace (length sv + 1)%nat with (S (length sv)) by lia.
      split; [ lia | ]. split; [ | split; [ | split ] ].
      * rewrite (take_S_r _ _ id)
          by (apply list_lookup_insert_eq; lia).
        rewrite take_insert_ge by lia. now rewrite Hta.
      * rewrite (take_S_r _ _ t)
          by (apply list_lookup_insert_eq; lia).
        rewrite take_insert_ge by lia. now rewrite Htt.
      * now rewrite length_insert.
      * now rewrite length_insert.
Qed.

Lemma filter_all {A} (f : A -> bool) (l : list A) :
  (forall x, In x l -> f x = true) -> List.filter f l = l.
Proof.
  induction l as [ | a l IH]; intros H; [ reflexivity | ].
  simpl. rewrite (H a) by now left.
  f_equal. apply IH. intros x Hx. apply H. now right.
Qed.

Lemma map_fst_take_zip {A B} (n : nat) (l : list A) (k : list B) :
  (n <= length l)%nat -> (n <= length k)%nat ->
  map fst (take n (zip l k)) = take n l.
Proof.
  revert l k. induction n as [ | n IH]; intros l k Hl Hk.
  - reflexivity.
  - destruct l as [ | a l], k as [ | b k]; simpl in *; try lia.
    f_equal. apply IH; lia.
Qed.

Lemma map_snd_take_zip {A B} (n : nat) (l : list A) (k : list B) :
  (n <= length l)%nat -> (n <= length k)%nat ->
  map snd (take n (zip l k)) = take n k.
Proof.
  revert l k. induction n as [ | n IH]; intros l k Hl Hk.
  - reflexivity.
  - destruct l as [ | a l], k as [ | b k]; simpl in *; try lia.
    f_equal. apply IH; lia.
Qed.

(** With no dead ray among the first [n], all of them survive. *)
Lemma survivors_all (n : nat) :
  (forall i t, (i < n)%nat -> rays_t_old !! i = Some t -> dead t = false) ->
  survivors n rays_alive_old rays_t_old
  = take n (zip rays_alive_old rays_t_old).
Proof.
  intros Halive. unfold survivors. apply filter_all.
  intros [id t] Hin. apply list_elem_of_In in Hin.
  apply list_elem_of_lookup in Hin as [i Hi].
  pose proof (lookup_lt_Some _ _ _ Hi) as Hlt. rewrite length_take in Hlt.
  rewrite lookup_take_lt in Hi by lia.
  apply lookup_zip_Some in Hi as [_ Hi].
  simpl. now rewrite (Halive i t) by (lia || assumption).
Qed.

End CompactRaysFacts.

(** C9.  When the counter starts at zero, [n_alive] does not exceed the
    arrays and none of the first [n_alive] entries of [rays_t_old] is
    below zero, the first [n_alive] entries of the output arrays
    [rays_alive] and [rays_t] are those of the input arrays, in the same
    order, and the counter ends at [n_alive]; the arrays keep their
    lengths. *)
Theorem compact_rays_no_dead_unchanged (n_alive : Z)
    (rays_alive rays_alive_old : list Z) (rays_t rays_t_old : list f32) :
  let n := Z.to_nat n_alive in
  0 <= n_alive ->
  (n <= length rays_alive_old)%nat -> (n <= length rays_t_old)%nat ->
  (n <= length rays_alive)%nat -> (n <= length rays_t)%nat ->
  (forall i t, (i < n)%nat -> rays_t_old !! i = Some t ->
               CompactRays.dead t = false) ->
  let s := CompactRays.forward n_alive rays_alive rays_alive_old rays_t
                               rays_t_old 0 in
  take n (CompactRays.rays_alive s) = take n rays_alive_old
  /\ take n (CompactRays.rays_t s) = take n rays_t_old
  /\ CompactRays.alive_counter s = n_alive
  /\ length (CompactRays.rays_alive s) = length rays_alive
  /\ length (CompactRays.rays_t s) = length rays_t.
Proof.
  intros n Hn Ha Ht Hra Hrt Halive s.
  pose proof (compact_prefix rays_alive_old rays_t_old n rays_alive rays_t
                Ha Ht Hra Hrt) as Hp.
  cbv zeta in Hp. fold n in s.
  rewrite (survivors_all _ _ n Halive) in Hp.
  rewrite map_fst_take_zip, map_snd_take_zip in Hp by assumption.
  assert (Hlen : length (take n (zip rays_alive_old rays_t_old)) = n).
  { rewrite length_take, length_zip. lia. }
  rewrite Hlen in Hp.
  destruct Hp as (Hc & Hta & Htt & Hla & Hlt).
  subst s. unfold CompactRays.forward, CompactRays.compact_rays_kernel.
  fold n. repeat split; try assumption.
  rewrite Hc. subst n. lia.
Qed.

(** C9 witness: three alive rays in arrays of four. *)
Lemma compact_rays_no_dead_unchanged_witness :
  let old_ids := [7; 2; 5; 9] in
  let old_ts := [F32.zero; F32.one; F32.of_Z 2; F32.of_Z (-1)] in
  let s := CompactRays.forward 3 [0; 0; 0; 0] old_ids
             (replicate 4 F32.zero) old_ts 0 in
  take 3 (CompactRays.rays_alive s) = [7; 2; 5]
  /\ take 3 (CompactRays.rays_t s) = [F32.zero; F32.one; F32.of_Z 2]
  /\ CompactRays.alive_counter s = 3.
Proof.
  intros old_ids old_ts s.
  destruct (compact_rays_no_dead_unchanged 3 [0; 0; 0; 0] old_ids
              (replicate 4 F32.zero) old_ts)
    as (Ha & Ht & Hc & _); try (cbn; lia).
  - intros [ | [ | [ | i]]] t Hi Ht; try (cbn in Hi; lia);
      cbn in Ht; injection Ht as <-; reflexivity.
  - split; [ exact Ha | ]. split; [ exact Ht | exact Hc ].
Defined.

(** With dead rays in between, the survivors move to the front in their
    order. *)
Example compact_rays_removes_dead :
  let s := CompactRays.forward 4 [0; 0; 0; 0] [7; 2; 5; 9]
             (replicate 4 F32.zero)
             [F32.one; F32.of_Z (-1); F32.of_Z 2; F32.of_Z 3] 0 in
  CompactRays.rays_alive s = [7; 5; 9; 0]
  /\ CompactRays.rays_t s = [F32.one; F32.of_Z 2; F32.of_Z 3; F32.zero]
  /\ CompactRays.alive_counter s = 3.
Proof. repeat split. Qed.

(* ===================================================================== *)
(** * Part III: further properties of the wrappers                        *)
(* ===================================================================== *)

(** ** The training marcher: what comes back in every mode *)

Lemma slice_stop_bounds (len m : Z) :
  0 <= len -> 0 <= slice_stop len m <= len.
Proof.
  intros Hl. unfold slice_stop. destruct (Z.ltb_spec m 0); lia.
Qed.

Lemma slice_to_take {A} (m : Z) (buf : list A) :
  slice_to m buf
  = take (Z.to_nat (slice_stop (Z.of_nat (length buf)) m)) buf
  /\ (Z.to_nat (slice_stop (Z.of_nat (length buf)) m) <= length buf)%nat.
Proof.
  split; [ reflexivity | ].
  pose proof (slice_stop_bounds (Z.of_nat (length buf)) m ltac:(lia)). lia.
Qed.

(** A row of a prefix of a filled buffer that no store addresses is a row
    of zeros. *)
Lemma prefix_unwritten_zero (ws : writes) (M k c i : nat) (r : row) :
  take k (apply_writes ws (replicate M (zero_row c))) !! i = Some r ->
  i ∉ written ws -> r = zero_row c.
Proof.
  intros Hi Hw.
  apply lookup_take_Some in Hi as [Hi _].
  rewrite apply_writes_untouched in Hi by exact Hw.
  apply lookup_replicate in Hi as [-> _]. reflexivity.
Qed.

Section MarchRaysTrainReturns.
Import MarchRaysTrain.

Variable kernel : MarchRaysTrain.kernel.
Variables (rays_o rays_d : buffer) (bound : f32).
Variables (density_bitfield : list Z) (C H : Z) (nears fars : list f32).
Variables (step_counter : option (Z * Z)) (perturb : bool).
Variables (dt_gamma : f32).

Let N : Z := Z.of_nat (length rays_o).

Let run (mean_count align : Z) (force_all_rays : bool) (max_steps : Z) :=
  march kernel rays_o rays_d bound density_bitfield C H nears fars
        step_counter mean_count perturb align force_all_rays dt_gamma
        max_steps.

Let call (mean_count align : Z) (force_all_rays : bool) (max_steps : Z) :=
  forward kernel rays_o rays_d bound density_bitfield C H nears fars
          step_counter mean_count perturb align force_all_rays dt_gamma
          max_steps.

(** The number of rows line 351 keeps, for a buffer of [M] rows. *)
Let kept (s : marched) (force_all_rays : bool) (mean_count align : Z)
    : nat :=
  if force_all_rays || (mean_count <=? 0)
  then Z.to_nat (slice_stop (m_M s)
                   (trim_count (fst (e_step_counter (m_effect s))) align))
  else Z.to_nat (m_M s).

Lemma forward_prefixes (mean_count align : Z) (force_all_rays : bool)
    (max_steps : Z) (out : output) :
  call mean_count align force_all_rays max_steps = Ok out ->
  exists s,
    run mean_count align force_all_rays max_steps = Ok s
    /\ let k := kept s force_all_rays mean_count align in
       (k <= Z.to_nat (m_M s))%nat
       /\ xyzs out = take k (m_xyzs s)
       /\ dirs out = take k (m_dirs s)
       /\ deltas out = take k (m_deltas s)
       /\ saved_ts out = m_ts s
       /\ rays out = e_rays (m_effect s)
       /\ saved_rays out = e_rays (m_effect s).
Proof.
  intros Hcall.
  destruct (forward_inv _ _ _ _ _ _ _ _ _ _ _ _ _ _ _ _ _ Hcall)
    as (s & Hs & ->).
  exists s. split; [ exact Hs | ].
  pose proof (marched_lengths _ _ _ _ _ _ _ _ _ _ _ _ _ _ _ _ _ Hs)
    as (Lx & Ld & Ldl & _).
  pose proof (march_inv _ _ _ _ _ _ _ _ _ _ _ _ _ _ _ _ _ Hs)
    as (Hcap & HM & _).
  assert (Htr : trims force_all_rays (m_mean_count s)
                = force_all_rays || (mean_count <=? 0)).
  { rewrite <- (trims_after_capacity rays_o mean_count align
                                     force_all_rays max_steps).
    now rewrite <- Hcap. }
  cbv zeta. unfold kept, finish. rewrite Htr.
  pose proof (slice_stop_bounds (m_M s)
                (trim_count (fst (e_step_counter (m_effect s))) align) HM)
    as Hb.
  destruct (force_all_rays || (mean_count <=? 0)); cbn [xyzs dirs deltas
    saved_ts rays saved_rays].
  - unfold slice_to. rewrite Lx, Ld, Ldl, Z2Nat.id by exact HM.
    repeat split; lia.
  - rewrite !take_ge by lia. repeat split; lia.
Qed.

(** X3.  In every mode the three outputs of a call that returns are the
    first [k] rows of the buffers the kernel filled, with the same [k] for
    the three, and [k] is never above the capacity [M]: on the trimming
    path [k] is the Python slice bound of [m] on [M] rows ([min m M] for
    [m >= 0], [max 0 (M + m)] for a negative [m]), on the amortized path
    [k = M].  The [ts] saved for the backward pass keeps all [M] rows in
    both modes, and the saved [rays] is the returned [rays]. *)
Theorem march_rays_train_outputs_are_prefixes (mean_count align : Z)
    (force_all_rays : bool) (max_steps : Z) (out : output) :
  call mean_count align force_all_rays max_steps = Ok out ->
  exists s (k : nat),
    run mean_count align force_all_rays max_steps = Ok s
    /\ (k <= Z.to_nat (m_M s))%nat
    /\ xyzs out = take k (m_xyzs s) /\ length (xyzs out) = k
    /\ dirs out = take k (m_dirs s) /\ length (dirs out) = k
    /\ deltas out = take k (m_deltas s) /\ length (deltas out) = k
    /\ length (saved_ts out) = Z.to_nat (m_M s)
    /\ saved_rays out = rays out
    /\ (force_all_rays = false -> 0 < mean_count -> k = Z.to_nat (m_M s))
    /\ (force_all_rays = true \/ mean_count <= 0 ->
        let m := trim_count (fst (e_step_counter (m_effect s))) align in
        (0 <= m -> Z.of_nat k = Z.min m (m_M s))
        /\ (m < 0 -> Z.of_nat k = Z.max 0 (m_M s + m))).
Proof.
  intros Hcall.
  destruct (forward_prefixes _ _ _ _ _ Hcall) as (s & Hs & Hp).
  cbv zeta in Hp. destruct Hp as (Hk & -> & -> & -> & -> & -> & ->).
  exists s, (kept s force_all_rays mean_count align).
  pose proof (marched_lengths _ _ _ _ _ _ _ _ _ _ _ _ _ _ _ _ _ Hs)
    as (Lx & Ld & Ldl & Lt).
  pose proof (march_inv _ _ _ _ _ _ _ _ _ _ _ _ _ _ _ _ _ Hs)
    as (_ & HM & _).
  rewrite !length_take, Lx, Ld, Ldl.
  split; [ exact Hs | ]. split; [ exact Hk | ].
  split; [ reflexivity | ]. split; [ lia | ].
  split; [ reflexivity | ]. split; [ lia | ].
  split; [ reflexivity | ]. split; [ lia | ].
  split; [ exact Lt | ]. split; [ reflexivity | ]. split.
  - intros -> Hm. unfold kept.
    destruct (Z.leb_spec mean_count 0); [ lia | reflexivity ].
  - intros Hc m. unfold kept.
    assert (force_all_rays || (mean_count <=? 0) = true) as ->.
    { destruct Hc as [-> | Hc]; [ reflexivity | ].
      apply orb_true_iff. right. now apply Z.leb_le. }
    fold m. unfold slice_stop.
    destruct (Z.ltb_spec m 0); split; intros; lia.
Qed.

(** X4.  In every mode, a row of [xyzs], [dirs], [deltas] or of the saved
    [ts] that the kernel did not store into is a row of zeros: this holds
    for the rows that padding to [align] adds on the trimming path as well
    as for the unused tail on the amortized path. *)
Theorem march_rays_train_unwritten_rows_zero (mean_count align : Z)
    (force_all_rays : bool) (max_steps : Z) (out : output) :
  call mean_count align force_all_rays max_steps = Ok out ->
  exists s,
    run mean_count align force_all_rays max_steps = Ok s
    /\ forall (i : nat) (r : row),
         (xyzs out !! i = Some r -> i ∉ written (w_xyzs (m_effect s)) ->
          r = zero_row 3)
         /\ (dirs out !! i = Some r -> i ∉ written (w_dirs (m_effect s)) ->
             r = zero_row 3)
         /\ (deltas out !! i = Some r ->
             i ∉ written (w_deltas (m_effect s)) -> r = zero_row 2)
         /\ (saved_ts out !! i = Some r ->
             i ∉ written (w_ts (m_effect s)) -> r = zero_row 1).
Proof.
  intros Hcall.
  destruct (forward_prefixes _ _ _ _ _ Hcall) as (s & Hs & Hp).
  cbv zeta in Hp. destruct Hp as (Hk & -> & -> & -> & -> & _ & _).
  exists s. split; [ exact Hs | ].
  pose proof (march_inv _ _ _ _ _ _ _ _ _ _ _ _ _ _ _ _ _ Hs)
    as (_ & _ & -> & -> & -> & ->).
  intros i r. repeat split; intros Hi Hw.
  - eapply prefix_unwritten_zero; eauto.
  - eapply prefix_unwritten_zero; eauto.
  - eapply prefix_unwritten_zero; eauto.
  - eapply (prefix_unwritten_zero _ _ (Z.to_nat (m_M s))); [ | exact Hw ].
    rewrite take_ge; [ exact Hi | ].
    now rewrite length_apply_writes, length_replicate.
Qed.


End MarchRaysTrainReturns.

(** X3 witness: one ray, [max_steps = 4], 4 samples emitted and
    [align = 8]: [m = 8] is cut to the 4 rows there are. *)
Lemma march_rays_train_outputs_are_prefixes_witness :
  exists out,
    MarchRaysTrain.forward (Fixtures.emit_train 4)
      [Fixtures.origin] [Fixtures.direction] F32.one [] 1 2
      [F32.one] [F32.one] None (-1) false 8 false F32.zero 4 = Ok out
    /\ length (MarchRaysTrain.xyzs out) = 4%nat
    /\ length (MarchRaysTrain.dirs out) = 4%nat
    /\ length (MarchRaysTrain.deltas out) = 4%nat
    /\ length (MarchRaysTrain.saved_ts out) = 4%nat.
Proof.
  eexists. split; [ reflexivity | ].
  destruct (march_rays_train_outputs_are_prefixes (Fixtures.emit_train 4)
              [Fixtures.origin] [Fixtures.direction] F32.one [] 1 2
              [F32.one] [F32.one] None false F32.zero (-1) 8 false 4 _
              eq_refl)
    as (s & k & Hs & _ & _ & Lx & _ & Ld & _ & Ldl & Lt & _ & _ & Hk).
  injection Hs as <-.
  specialize (Hk ltac:(right; lia)). cbv zeta in Hk.
  destruct Hk as (Hk & _). specialize (Hk ltac:(vm_compute; discriminate)).
  change (Z.of_nat k = 4) in Hk.
  assert (k = 4%nat) as -> by lia.
  split; [ exact Lx | ]. split; [ exact Ld | ]. split; [ exact Ldl | ].
  exact Lt.
Defined.

(** X4 witness: no estimate, 5 samples emitted, [align = 4]: 8 rows come
    back and row 6, which the kernel did not store into, is zero. *)
Lemma march_rays_train_unwritten_rows_zero_witness :
  exists out,
    MarchRaysTrain.forward (Fixtures.emit_train 5)
      [Fixtures.origin] [Fixtures.direction] F32.one [] 1 2
      [F32.one] [F32.one] None (-1) false 4 false F32.zero 16 = Ok out
    /\ forall r, MarchRaysTrain.xyzs out !! 6%nat = Some r ->
                 r = zero_row 3.
Proof.
  eexists. split; [ reflexivity | ].
  destruct (march_rays_train_unwritten_rows_zero (Fixtures.emit_train 5)
              [Fixtures.origin] [Fixtures.direction] F32.one [] 1 2
              [F32.one] [F32.one] None false F32.zero (-1) 4 false 16 _
              eq_refl) as (s & Hs & Hz).
  injection Hs as <-.
  intros r Hr. apply (Hz 6%nat r); [ exact Hr | ].
  vm_compute. intros H. repeat (apply elem_of_cons in H as [H | H];
                                [ discriminate | ]).
  now apply elem_of_nil in H.
Defined.


(** ** The inference marcher: errors and zero rows *)




(** X7.  Every row of the three buffers that the kernel did not store
    into is a row of zeros; so when the kernel stores below
    [n_alive * n_step] only, as its chunk layout has it, all the rows from
    [n_alive * n_step] on, which the padding adds, are zero. *)
Theorem march_rays_unwritten_rows_zero (kernel : MarchRays.kernel)
    (n_alive n_step : Z) (rays_alive : list Z) (rays_t : list f32)
    (rays_o rays_d : buffer) (bound : f32) (density_bitfield : list Z)
    (C H : Z) (near far : list f32) (align : Z) (perturb : bool)
    (dt_gamma : f32) (max_steps : Z) (xyzs dirs deltas : buffer) :
  MarchRays.forward kernel n_alive n_step rays_alive rays_t rays_o rays_d
    bound density_bitfield C H near far align perturb dt_gamma max_steps
  = Ok (xyzs, dirs, deltas) ->
  let eff :=
    kernel (MarchRays.kernel_call n_alive n_step rays_alive rays_t rays_o
              rays_d bound density_bitfield C H near far perturb dt_gamma
              max_steps) in
  (forall (i : nat) (r : row),
     (xyzs !! i = Some r -> i ∉ written (MarchRays.w_xyzs eff) ->
      r = zero_row 3)
     /\ (dirs !! i = Some r -> i ∉ written (MarchRays.w_dirs eff) ->
         r = zero_row 3)
     /\ (deltas !! i = Some r -> i ∉ written (MarchRays.w_deltas eff) ->
         r = zero_row 2))
  /\ ((forall j, j ∈ written (MarchRays.w_xyzs eff) ->
                 Z.of_nat j < n_alive * n_step) ->
      forall (i : nat) (r : row),
        n_alive * n_step <= Z.of_nat i -> xyzs !! i = Some r ->
        r = zero_row 3).
Proof.
  intros Hf eff.
  unfold MarchRays.forward, torch_zeros in Hf.
  destruct (Z.ltb_spec (MarchRays.chunk_size n_alive n_step align) 0);
    cbn [bind] in Hf; [ discriminate | ].
  fold (MarchRays.kernel_call n_alive n_step rays_alive rays_t rays_o
          rays_d bound density_bitfield C H near far perturb dt_gamma
          max_steps) in Hf.
  fold eff in Hf. injection Hf as <- <- <-.
  assert (Hz : forall ws c (i : nat) (r : row),
             apply_writes ws
               (replicate
                  (Z.to_nat (MarchRays.chunk_size n_alive n_step align))
                  (zero_row c)) !! i = Some r ->
             i ∉ written ws -> r = zero_row c).
  { intros ws c i r Hi Hw.
    rewrite apply_writes_untouched in Hi by exact Hw.
    apply lookup_replicate in Hi as [-> _]. reflexivity. }
  split.
  - intros i r. repeat split; intros Hi Hw; eapply Hz; eauto.
  - intros Hbelow i r Hi Hr. eapply Hz; [ exact Hr | ].
    intros Hin. specialize (Hbelow i Hin). lia.
Qed.

(** X7 witness: 3 rays of 2 steps with [align = 4]: rows 6 and 7 are the
    padding, and they are zero. *)
Lemma march_rays_unwritten_rows_zero_witness :
  exists xyzs dirs deltas,
    MarchRays.forward Fixtures.fill_infer 3 2 [0; 1; 2]
      [F32.one; F32.one; F32.one] [] [] F32.one [] 1 2 [] [] 4 false
      F32.zero 16 = Ok (xyzs, dirs, deltas)
    /\ length xyzs = 8%nat
    /\ forall r, xyzs !! 7%nat = Some r -> r = zero_row 3.
Proof.
  do 3 eexists. split; [ reflexivity | ]. split; [ reflexivity | ].
  destruct (march_rays_unwritten_rows_zero Fixtures.fill_infer 3 2
              [0; 1; 2] [F32.one; F32.one; F32.one] [] [] F32.one [] 1 2
              [] [] 4 false F32.zero 16 _ _ _ eq_refl) as (_ & Hpad).
  intros r Hr. apply (fun Hb => Hpad Hb 7%nat r); [ | lia | exact Hr ].
  vm_compute. intros j Hj.
  repeat (apply elem_of_cons in Hj as [-> | Hj]; [ reflexivity | ]).
  now apply elem_of_nil in Hj.
Defined.

(** ** The backward pass of the training marcher: every call raises *)
Section MarchRaysTrainBackwardRaises.
Import Tensor MarchRaysTrainBackward.

(** X1.  The backward pass raises for every saved [rays], whatever the
    saved [ts] and the incoming gradients: on an empty batch the sum at
    line 366 cannot be broadcast (shapes [[0]] and [[0, 3]]), and on every
    other batch [torch.cat] is handed a vector and a matrix. *)
Theorem march_rays_train_backward_always_raises
    (saved_rays : list (Z * Z * Z))
    (saved_ts dL_dxyzs dL_ddirs dL_ddeltas : buffer) :
  backward saved_rays saved_ts dL_dxyzs dL_ddirs dL_ddeltas
  = Err match saved_rays with
        | [] => BroadcastMismatch 0 3
        | _ :: _ => CatRankMismatch 1 2
        end.
Proof. unfold backward. now rewrite segments_fails. Qed.

(** The backward pass is line 366 followed by lines 368-375. *)
Lemma backward_from_segments (saved_rays : list (Z * Z * Z))
    (saved_ts dL_dxyzs dL_ddirs dL_ddeltas : buffer) :
  backward saved_rays saved_ts dL_dxyzs dL_ddirs dL_ddeltas
  = bind (segments (of_rays saved_rays))
         (fun seg => backward_from seg (of_buffer 1 saved_ts)
                       (of_buffer 3 dL_dxyzs) (of_buffer 3 dL_ddirs)).
Proof. reflexivity. Qed.


End MarchRaysTrainBackwardRaises.

(** ** The backward pass of the box intersection, on a batch *)
Section NearFarBatch.
Import NearFar.

(** X8.  A row of the indicator is all zero for the sentinel 255 and, for
    every other index, 1 in column [index % 3] and 0 in the two others: a
    byte other than 255 counts as a hit whether or not it is one of the six
    planes, and the two planes of one axis ([index] and [index + 3]) have
    the same row. *)
Theorem get_indicator_rows :
  get_indicator sentinel = (F32.zero, F32.zero, F32.zero)
  /\ (forall index j, index <> sentinel -> axis j ->
        vget j (get_indicator index)
        = if j =? index mod 3 then F32.one else F32.zero)
  /\ (forall index, index <> sentinel -> index + 3 <> sentinel ->
        get_indicator (index + 3) = get_indicator index).
Proof.
  split; [ reflexivity | ]. split.
  - intros index j Hi Hj. rewrite get_indicator_spec by exact Hj.
    destruct (Z.eqb_spec index sentinel); [ contradiction | ].
    now rewrite andb_true_r.
  - intros index Hi Hi3. unfold get_indicator, sentinel in *.
    replace ((index + 3) mod 3) with (index mod 3)
      by (rewrite <- (Z.mod_add index 1 3) by lia; f_equal; lia).
    destruct (Z.eqb_spec (index + 3) 255); [ contradiction | ].
    destruct (Z.eqb_spec index 255); [ contradiction | reflexivity ].
Qed.

Lemma backward_lookup (box : aabb) (batch : list ray) (i : nat) (r : ray) :
  batch !! i = Some r ->
  fst (backward box batch) !! i = Some (fst (backward_ray box r))
  /\ snd (backward box batch) !! i = Some (snd (backward_ray box r)).
Proof.
  intros Hi. unfold backward. cbn [fst snd].
  change (map ?f batch) with (f <$> batch).
  rewrite !list_lookup_fmap, Hi. split; reflexivity.
Qed.

(** X9.  In the gradients of a batch, a column of a ray that neither of
    its two hit indices selects is zero in [dL_drays_o] when the incoming
    gradients are finite and the direction has no zero (or NaN) in that
    column, and zero in [dL_drays_d] when moreover the two masked
    quotients are finite.  This covers the two unselected columns of a
    hit and all three columns of a miss. *)
Theorem near_far_backward_masked_columns_zero (box : aabb)
    (batch : list ray) (i : nat) (r : ray) (j : Z) :
  batch !! i = Some r ->
  axis j ->
  near_index r mod 3 <> j \/ near_index r = sentinel ->
  far_index r mod 3 <> j \/ far_index r = sentinel ->
  F32.is_finite (dL_dnear r) = true -> F32.is_finite (dL_dfar r) = true ->
  nonzero (vget j (rays_d r)) = true ->
  exists go gd,
    fst (backward box batch) !! i = Some go
    /\ snd (backward box batch) !! i = Some gd
    /\ F32.is_zero (vget j go) = true
    /\ (let d_sq := F32.mul (vget j (rays_d r)) (vget j (rays_d r)) in
        let term pl :=
          F32.sub (F32.div (vget j (rays_o r)) d_sq) (F32.div pl d_sq) in
        F32.is_finite (term (plane box (near_index r mod 6))) = true ->
        F32.is_finite (term (plane box (far_index r mod 6))) = true ->
        F32.is_zero (vget j gd) = true).
Proof.
  intros Hi Hj Hn Hf Hgn Hgf Hd.
  destruct (backward_lookup box batch i r Hi) as [Ho Hdir].
  exists (fst (backward_ray box r)), (snd (backward_ray box r)).
  split; [ exact Ho | ]. split; [ exact Hdir | ].
  now apply backward_ray_unselected_zero.
Qed.

Lemma div_by_zero_not_finite (x d : f32) :
  F32.is_zero d = true -> F32.is_finite (F32.div x d) = false.
Proof. destruct x, d; simpl; intros; try discriminate; reflexivity. Qed.

Lemma mul_not_finite (g x : f32) :
  F32.is_finite x = false -> F32.is_finite (F32.mul g x) = false.
Proof. destruct g, x; simpl; intros; try discriminate; reflexivity. Qed.

Lemma add_not_finite (x y : f32) :
  F32.is_finite x = false -> F32.is_finite y = false ->
  F32.is_finite (F32.add x y) = false.
Proof.
  destruct x as [ | [ | ] | | ], y as [ | [ | ] | | ]; simpl; intros;
    try discriminate; reflexivity.
Qed.

Lemma sub_not_finite (x y : f32) :
  F32.is_finite x = false -> F32.is_finite y = false ->
  F32.is_finite (F32.sub x y) = false.
Proof.
  destruct x as [ | [ | ] | | ], y as [ | [ | ] | | ]; simpl; intros;
    try discriminate; reflexivity.
Qed.

Lemma mul_zero_not_finite (x : f32) :
  F32.is_finite x = false -> F32.mul F32.zero x = S754_nan.
Proof. destruct x; simpl; intros; try discriminate; reflexivity. Qed.

Lemma mul_nan (g : f32) : F32.mul g S754_nan = S754_nan.
Proof. destruct g; reflexivity. Qed.

Lemma square_of_zero (d : f32) :
  F32.is_zero d = true -> F32.is_zero (F32.mul d d) = true.
Proof. destruct d; simpl; intros; try discriminate; reflexivity. Qed.

(** X10.  In the gradients of a batch, a column in which the direction of
    a ray is zero ([+0.] or [-0.]) is never finite, neither in
    [dL_drays_o] nor in [dL_drays_d], whatever the origin, the box, the
    hit indices and the incoming gradients; and when neither hit index
    selects the column, both entries are NaN. *)
Theorem near_far_backward_zero_direction_not_finite (box : aabb)
    (batch : list ray) (i : nat) (r : ray) (j : Z) :
  batch !! i = Some r ->
  axis j ->
  F32.is_zero (vget j (rays_d r)) = true ->
  exists go gd,
    fst (backward box batch) !! i = Some go
    /\ snd (backward box batch) !! i = Some gd
    /\ F32.is_finite (vget j go) = false
    /\ F32.is_finite (vget j gd) = false
    /\ (near_index r mod 3 <> j \/ near_index r = sentinel ->
        far_index r mod 3 <> j \/ far_index r = sentinel ->
        vget j go = S754_nan /\ vget j gd = S754_nan).
Proof.
  intros Hi Hj Hd.
  destruct (backward_lookup box batch i r Hi) as [Ho Hdir].
  exists (fst (backward_ray box r)), (snd (backward_ray box r)).
  split; [ exact Ho | ]. split; [ exact Hdir | ].
  rewrite backward_ray_origin by exact Hj.
  pose proof (backward_ray_direction box r j Hj) as Hgd.
  cbv zeta in Hgd. rewrite Hgd. clear Hgd.
  pose proof (square_of_zero _ Hd) as Hsq.
  set (d := vget j (rays_d r)) in *.
  set (d_sq := F32.mul d d) in *.
  assert (Hterm : forall pl,
             F32.is_finite (F32.sub (F32.div (vget j (rays_o r)) d_sq)
                                    (F32.div pl d_sq)) = false).
  { intros pl. apply sub_not_finite; now apply div_by_zero_not_finite. }
  split; [ | split ].
  - apply add_not_finite; apply mul_not_finite;
      now apply div_by_zero_not_finite.
  - apply add_not_finite; apply mul_not_finite; apply mul_not_finite;
      apply Hterm.
  - intros Hn Hf.
    rewrite !get_indicator_unselected by assumption.
    split.
    + assert (F32.div (F32.mul F32.zero F32.minus_one) d = S754_nan) as ->.
      { destruct d; simpl in Hd |- *; try discriminate; reflexivity. }
      rewrite !mul_nan. reflexivity.
    + rewrite (mul_zero_not_finite _
                 (Hterm (plane box (near_index r mod 6)))).
      rewrite (mul_zero_not_finite _
                 (Hterm (plane box (far_index r mod 6)))).
      rewrite !mul_nan. reflexivity.
Qed.

End NearFarBatch.

(** X9 witness: the slanted ray of the examples, column y. *)
Lemma near_far_backward_masked_columns_zero_witness :
  exists go gd,
    fst (NearFar.backward Fixtures.unit_box [Fixtures.slanted_ray])
      !! 0%nat = Some go
    /\ snd (NearFar.backward Fixtures.unit_box [Fixtures.slanted_ray])
         !! 0%nat = Some gd
    /\ F32.is_zero (NearFar.vget 1 go) = true
    /\ F32.is_zero (NearFar.vget 1 gd) = true.
Proof.
  destruct (near_far_backward_masked_columns_zero Fixtures.unit_box
              [Fixtures.slanted_ray] 0 Fixtures.slanted_ray 1)
    as (go & gd & Ho & Hd & Hz & Hzd);
    try reflexivity.
  - right. left. reflexivity.
  - left. vm_compute. discriminate.
  - left. vm_compute. discriminate.
  - exists go, gd. split; [ exact Ho | ]. split; [ exact Hd | ].
    split; [ exact Hz | ]. apply Hzd; reflexivity.
Defined.

(** X10 witness: the ray along x that hits the box, column z. *)
Lemma near_far_backward_zero_direction_not_finite_witness :
  exists go gd,
    fst (NearFar.backward Fixtures.unit_box [Fixtures.hit_ray])
      !! 0%nat = Some go
    /\ snd (NearFar.backward Fixtures.unit_box [Fixtures.hit_ray])
         !! 0%nat = Some gd
    /\ NearFar.vget 2 go = S754_nan /\ NearFar.vget 2 gd = S754_nan.
Proof.
  destruct (near_far_backward_zero_direction_not_finite Fixtures.unit_box
              [Fixtures.hit_ray] 0 Fixtures.hit_ray 2)
    as (go & gd & Ho & Hd & _ & _ & Hnan);
    try reflexivity.
  - right. right. reflexivity.
  - exists go, gd. split; [ exact Ho | ]. split; [ exact Hd | ].
    apply Hnan; left; vm_compute; discriminate.
Defined.

(** ** The size of the bit field *)

Lemma packbits_forward_with_kernel (grid : buffer) (thresh : f32)
    (bitfield : option (list Z)) :
  Packbits.forward grid thresh bitfield
  = Packbits.forward_with Packbits.packbits_kernel grid thresh bitfield.
Proof. reflexivity. Qed.

(** X11.  Whatever the kernel stores, as long as it fills the bit field in
    place, [packbits] does not raise and does not check a bit field it is
    handed: with [bitfield=None] the result has [C * H3 // 8] bytes, so
    the last [C * H3 % 8] cells of the grid have no byte, and a bit field
    passed in comes back with the length it had, whatever the grid. *)
Theorem packbits_result_length
    (kernel : list f32 -> Z -> f32 -> list Z -> list Z)
    (grid : buffer) (thresh : f32) (bitfield : option (list Z)) :
  (forall g N t b, length (kernel g N t b) = length b) ->
  let cells := Z.of_nat (length grid) * Z.of_nat (length (hd [] grid)) in
  exists out,
    Packbits.forward_with kernel grid thresh bitfield = Ok out
    /\ (bitfield = None ->
        Z.of_nat (length out) = cells / 8
        /\ 8 * Z.of_nat (length out) <= cells < 8 * Z.of_nat (length out) + 8)
    /\ (forall b, bitfield = Some b -> length out = length b).
Proof.
  intros Hk cells. unfold Packbits.forward_with. fold cells.
  assert (Hc : 0 <= cells) by (subst cells; lia).
  assert (Hq : 0 <= cells / 8) by (apply Z.div_pos; lia).
  destruct bitfield as [b | ].
  - eexists. split; [ reflexivity | ]. split; [ discriminate | ].
    intros b' [= <-]. apply Hk.
  - unfold Packbits.torch_empty.
    destruct (Z.ltb_spec (cells / 8) 0); [ lia | ]. cbn [bind].
    eexists. split; [ reflexivity | ]. split; [ | discriminate ].
    intros _. rewrite Hk, length_replicate, Z2Nat.id by exact Hq.
    split; [ reflexivity | ].
    pose proof (Z.div_mod cells 8 ltac:(lia)).
    pose proof (Z.mod_pos_bound cells 8 ltac:(lia)). lia.
Qed.

(** X11 witness: one cascade of 12 cells and the packing kernel: one
    byte, the last 4 cells are left out. *)
Lemma packbits_result_length_witness :
  exists out,
    Packbits.forward (replicate 1 (replicate 12 F32.one)) F32.zero None
    = Ok out
    /\ Z.of_nat (length out) = 1.
Proof.
  destruct (packbits_result_length Packbits.packbits_kernel
              (replicate 1 (replicate 12 F32.one)) F32.zero None)
    as (out & Hout & Hlen & _).
  - intros g N t b. apply packbits_kernel_length.
  - exists out. split; [ exact Hout | ].
    destruct (Hlen eq_refl) as (Hl & _). exact Hl.
Defined.
